(** * mindwave.py: the MindWave dongle listener

    A shallow embedding of [src/mindwave.py]: the packet loop of
    [Headset.DongleListener.run] and the row decoder
    [Headset.DongleListener.parse_payload], with the [Headset] object they
    mutate and the handler calls they make.

    Conventions.
    - A Python [bytes] object is a [list byte]; indexing it gives an [int],
      here [ord b : Z], always in [0, 255].
    - [payload[i]] raises [IndexError] out of range: [getitem] returns [None].
      A slice [payload[i:j]] never raises: [firstn]/[skipn].
    - The handler lists hold opaque callables.  They are identified by a
      number, and calling one is recorded in a log of [call]s, in call order.
      Handlers are taken to return normally and to leave the headset's
      fields alone.
    - The serial device is the list of bytes it delivers before it fails; a
      [read] that needs more bytes than are left is the read that raises. *)

From Stdlib Require Import Strings.String Strings.Ascii.
From Stdlib Require Import ZArith List Bool Lia.
From Stdlib Require Import Init.Byte Strings.Byte.
Import ListNotations.
Local Open Scope Z_scope.

(** ** Bytes *)

Definition ord (b : byte) : Z := Z.of_N (Byte.to_N b).

Definition getitem (bs : list byte) (i : nat) : option Z :=
  option_map ord (nth_error bs i).

(** [bytes.hex()]: two lowercase hexadecimal digits per byte. *)
Definition hex_digit (n : N) : ascii :=
  match n with
  | 0%N => "0" | 1%N => "1" | 2%N => "2" | 3%N => "3"
  | 4%N => "4" | 5%N => "5" | 6%N => "6" | 7%N => "7"
  | 8%N => "8" | 9%N => "9" | 10%N => "a" | 11%N => "b"
  | 12%N => "c" | 13%N => "d" | 14%N => "e" | _ => "f"
  end%char.

Fixpoint hex (bs : list byte) : string :=
  match bs with
  | [] => EmptyString
  | b :: bs' =>
      String (hex_digit (Byte.to_N b / 16))
        (String (hex_digit (Byte.to_N b mod 16)) (hex bs'))
  end.

(** ** Byte codes and status codes (lines 3-23) *)

Definition CONNECT              : byte := xc0.
Definition DISCONNECT           : byte := xc1.
Definition AUTOCONNECT          : byte := xc2.
Definition SYNC                 : byte := xaa.
Definition EXCODE               : byte := x55.
Definition POOR_SIGNAL          : byte := x02.
Definition ATTENTION            : byte := x04.
Definition MEDITATION           : byte := x05.
Definition BLINK                : byte := x16.
Definition HEADSET_CONNECTED    : byte := xd0.
Definition HEADSET_NOT_FOUND    : byte := xd1.
Definition HEADSET_DISCONNECTED : byte := xd2.
Definition REQUEST_DENIED       : byte := xd3.
Definition STANDBY_SCAN         : byte := xd4.
Definition RAW_VALUE            : byte := x80.

Inductive status_code := STATUS_CONNECTED | STATUS_SCANNING | STATUS_STANDBY.

(** [status != code], where [status] may be [None]. *)
Definition status_ne (s : option status_code) (c : status_code) : bool :=
  match s, c with
  | Some STATUS_CONNECTED, STATUS_CONNECTED
  | Some STATUS_SCANNING, STATUS_SCANNING
  | Some STATUS_STANDBY, STATUS_STANDBY => false
  | _, _ => true
  end.

(** ** The headset object (lines 210-236) *)

Definition handler := nat.

(** The twelve handler lists of a headset. *)
Inductive registry :=
| poor_signal_handlers
| good_signal_handlers
| attention_handlers
| meditation_handlers
| blink_handlers
| raw_value_handlers
| headset_connected_handlers
| headset_notfound_handlers
| headset_disconnected_handlers
| request_denied_handlers
| scanning_handlers
| standby_handlers.

Record Headset := mkHeadset {
  headset_id  : option string;
  poor_signal : Z;
  attention   : Z;
  meditation  : Z;
  blink       : Z;
  raw_value   : Z;
  status      : option status_code;
  handlers    : registry -> list handler
}.

(** [Headset.__init__], without the serial device and the listener thread. *)
Definition Headset_init (id : option string) : Headset :=
  {| headset_id := id;
     poor_signal := 255;
     attention := 0;
     meditation := 0;
     blink := 0;
     raw_value := 0;
     status := None;
     handlers := fun _ => [] |}.

Definition set_headset_id (v : option string) (h : Headset) : Headset :=
  mkHeadset v (poor_signal h) (attention h) (meditation h) (blink h)
            (raw_value h) (status h) (handlers h).
Definition set_poor_signal (v : Z) (h : Headset) : Headset :=
  mkHeadset (headset_id h) v (attention h) (meditation h) (blink h)
            (raw_value h) (status h) (handlers h).
Definition set_attention (v : Z) (h : Headset) : Headset :=
  mkHeadset (headset_id h) (poor_signal h) v (meditation h) (blink h)
            (raw_value h) (status h) (handlers h).
Definition set_meditation (v : Z) (h : Headset) : Headset :=
  mkHeadset (headset_id h) (poor_signal h) (attention h) v (blink h)
            (raw_value h) (status h) (handlers h).
Definition set_blink (v : Z) (h : Headset) : Headset :=
  mkHeadset (headset_id h) (poor_signal h) (attention h) (meditation h) v
            (raw_value h) (status h) (handlers h).
Definition set_raw_value (v : Z) (h : Headset) : Headset :=
  mkHeadset (headset_id h) (poor_signal h) (attention h) (meditation h)
            (blink h) v (status h) (handlers h).
Definition set_status (v : option status_code) (h : Headset) : Headset :=
  mkHeadset (headset_id h) (poor_signal h) (attention h) (meditation h)
            (blink h) (raw_value h) v (handlers h).

Definition registry_eqb (r1 r2 : registry) : bool :=
  match r1, r2 with
  | poor_signal_handlers, poor_signal_handlers
  | good_signal_handlers, good_signal_handlers
  | attention_handlers, attention_handlers
  | meditation_handlers, meditation_handlers
  | blink_handlers, blink_handlers
  | raw_value_handlers, raw_value_handlers
  | headset_connected_handlers, headset_connected_handlers
  | headset_notfound_handlers, headset_notfound_handlers
  | headset_disconnected_handlers, headset_disconnected_handlers
  | request_denied_handlers, request_denied_handlers
  | scanning_handlers, scanning_handlers
  | standby_handlers, standby_handlers => true
  | _, _ => false
  end.

(** [headset.<r>.append(f)], what an application does to register [f]. *)
Definition append_handler (r : registry) (f : handler) (h : Headset) : Headset :=
  mkHeadset (headset_id h) (poor_signal h) (attention h) (meditation h)
            (blink h) (raw_value h) (status h)
            (fun r' => if registry_eqb r r' then handlers h r' ++ [f]
                       else handlers h r').

(** ** Handler calls *)

(** What a handler is called with after the headset itself. *)
Inductive pyarg :=
| NoArg               (* handler(headset) *)
| IntArg (z : Z)      (* handler(headset, <int>) *)
| StrArg (s : string) (* handler(headset, <str>) *)
| NoneArg.            (* handler(headset, None) *)

Record call := Call { via : registry; callee : handler; arg : pyarg }.

(** [for handler in headset.<r>: handler(headset, a)] *)
Definition fire (r : registry) (a : pyarg) (h : Headset) : list call :=
  map (fun f => Call r f a) (handlers h r).

(** ** parse_payload (lines 89-208) *)

(** The rows with a one-byte value (lines 118-144). *)
Definition dispatch_single (code value : Z) (h : Headset)
  : Headset * list call :=
  if code =? ord POOR_SIGNAL then
    let old_poor_signal := poor_signal h in
    let h := set_poor_signal value h in
    if poor_signal h >? 0 then
      if old_poor_signal =? 0
      then (h, fire poor_signal_handlers (IntArg (poor_signal h)) h)
      else (h, [])
    else
      if old_poor_signal >? 0
      then (h, fire good_signal_handlers (IntArg (poor_signal h)) h)
      else (h, [])
  else if code =? ord ATTENTION then
    let h := set_attention value h in
    (h, fire attention_handlers (IntArg (attention h)) h)
  else if code =? ord MEDITATION then
    let h := set_meditation value h in
    (h, fire meditation_handlers (IntArg (meditation h)) h)
  else if code =? ord BLINK then
    let h := set_blink value h in
    (h, fire blink_handlers (IntArg (blink h)) h)
  else (h, []).

(** Lines 158-164.  [value[0]] and [value[1]] raise [IndexError] on a value
    shorter than two bytes, before anything is stored: [None]. *)
Definition dispatch_raw (code : Z) (value : list byte) (h : Headset)
  : option (Headset * list call) :=
  if code =? ord RAW_VALUE then
    match getitem value 0, getitem value 1 with
    | Some v0, Some v1 =>
        let raw := v0 * 256 + v1 in
        let raw := if raw >=? 32768 then raw - 65536 else raw in
        let h := set_raw_value raw h in
        Some (h, fire raw_value_handlers (IntArg (raw_value h)) h)
    | _, _ => None
    end
  else Some (h, []).

(** Lines 165-208, the [if]/[elif] chain on the connection codes. *)
Definition dispatch_link (code vlength : Z) (value : list byte) (h : Headset)
  : Headset * list call :=
  if code =? ord HEADSET_CONNECTED then
    let run_handlers := status_ne (status h) STATUS_CONNECTED in
    let h := set_status (Some STATUS_CONNECTED) h in
    let h := set_headset_id (Some (hex value)) h in
    if run_handlers then (h, fire headset_connected_handlers NoArg h)
    else (h, [])
  else if code =? ord HEADSET_NOT_FOUND then
    if vlength >? 0 then
      let not_found_id := hex value in
      (h, fire headset_notfound_handlers (StrArg not_found_id) h)
    else (h, fire headset_notfound_handlers NoneArg h)
  else if code =? ord HEADSET_DISCONNECTED then
    let headset_id := hex value in
    (h, fire headset_disconnected_handlers (StrArg headset_id) h)
  else if code =? ord REQUEST_DENIED then
    (h, fire request_denied_handlers NoArg h)
  else if code =? ord STANDBY_SCAN then
    let byte := getitem value 0 in (* None on IndexError *)
    let truthy := match byte with Some b => negb (b =? 0) | None => false end in
    if truthy then
      let run_handlers := status_ne (status h) STATUS_SCANNING in
      let h := set_status (Some STATUS_SCANNING) h in
      if run_handlers then (h, fire scanning_handlers NoArg h) else (h, [])
    else
      let run_handlers := status_ne (status h) STATUS_STANDBY in
      let h := set_status (Some STATUS_STANDBY) h in
      if run_handlers then (h, fire standby_handlers NoArg h) else (h, [])
  else (h, []).

(** The rows with a length-prefixed value (lines 156-208): the [RAW_VALUE]
    test, then the chain. *)
Definition dispatch_multi (code vlength : Z) (value : list byte) (h : Headset)
  : option (Headset * list call) :=
  match dispatch_raw code value h with
  | None => None
  | Some (h1, cs1) =>
      let '(h2, cs2) := dispatch_link code vlength value h1 in
      Some (h2, cs1 ++ cs2)
  end.

(** The inner loop of lines 101-108.  [unread] is [payload[index:]], so
    [payload[index]] is its head and raises [IndexError] when it is empty;
    that [break] leaves the inner loop only, with [code] still [EXCODE]. *)
Fixpoint excode_loop (unread : list byte) (code : Z) (index excode : nat)
  : Z * nat * nat :=
  if code =? ord EXCODE then
    match unread with
    | [] => (code, index, S excode)
    | b :: unread' => excode_loop unread' (ord b) (S index) (S excode)
    end
  else (code, index, excode).

(** One turn of the outer loop, entered with [index < len(payload)]. *)
Inductive turn :=
| Next (index : nat) (h : Headset) (cs : list call) (* back to the loop test *)
| Break                                            (* [break] of the outer loop *)
| Raise.                                           (* IndexError leaves the function *)

Definition parse_turn (payload : list byte) (index : nat) (h : Headset) : turn :=
  match getitem payload index with
  | None => Break
  | Some code =>
      let index := S index in
      let '(code, index, excode) :=
        excode_loop (skipn index payload) code index 0 in
      if code <? 128 then
        match getitem payload index with
        | None => Break
        | Some value =>
            let index := S index in
            let '(h', cs) := dispatch_single code value h in
            Next index h' cs
        end
      else
        match getitem payload index with
        | None => Break
        | Some vlength =>
            let index := S index in
            let value := firstn (Z.to_nat vlength) (skipn index payload) in
            let index := (index + Z.to_nat vlength)%nat in
            match dispatch_multi code vlength value h with
            | None => Raise
            | Some (h', cs) => Next index h' cs
            end
        end
  end.

(** How a call of [parse_payload] ends. *)
Inductive ending := Returned | IndexError.

(** The calls [cs] of one turn, then what the rest of the loop did. *)
Definition and_then (cs : list call)
  (r : option (ending * Headset * list call))
  : option (ending * Headset * list call) :=
  match r with
  | Some (e, h, cs') => Some (e, h, cs ++ cs')
  | None => None
  end.

(** The outer loop [while index < len(payload)], with a bound on its turns;
    [None] is the bound reached. *)
Fixpoint parse_loop (fuel : nat) (payload : list byte) (index : nat)
  (h : Headset) : option (ending * Headset * list call) :=
  match fuel with
  | O => None
  | S fuel' =>
      if (index <? List.length payload)%nat then
        match parse_turn payload index h with
        | Break => Some (Returned, h, [])
        | Raise => Some (IndexError, h, [])
        | Next index' h' cs =>
            and_then cs (parse_loop fuel' payload index' h')
        end
      else Some (Returned, h, [])
  end.

Definition parse_payload (payload : list byte) (h : Headset)
  : option (ending * Headset * list call) :=
  parse_loop (S (List.length payload)) payload 0 h.

(** ** run (lines 57-87) *)

(** [s.read(n)] on a port opened without a timeout: the next [n] bytes, or
    the failure of the device ([None]) when fewer are left. *)
Definition read (n : nat) (s : list byte) : option (list byte * list byte) :=
  if (n <=? List.length s)%nat then Some (firstn n s, skipn n s) else None.

Fixpoint bytes_eqb (a b : list byte) : bool :=
  match a, b with
  | [], [] => true
  | x :: a', y :: b' => Byte.eqb x y && bytes_eqb a' b'
  | _, _ => false
  end.

(** [int.from_bytes(bs, byteorder='big')] *)
Definition int_from_bytes (bs : list byte) : Z :=
  fold_left (fun acc b => acc * 256 + ord b) bs 0.

(** Lines 63-67: read length bytes until one is not 170.  Each turn is one
    [s.read(1)], so the loop is a recursion on the bytes of the device. *)
Fixpoint read_plength (s : list byte) : option (Z * list byte) :=
  match s with
  | [] => None
  | plength_byte :: s' =>
      let plength := int_from_bytes [plength_byte] in
      if negb (plength =? 170) then Some (plength, s') else read_plength s'
  end.

(** Lines 75-77, the value [val] that [run] computes for a payload. *)
Definition checksum (payload : list byte) : Z :=
  let val := fold_right Z.add 0 (map ord (removelast payload)) in
  let val := Z.land val 255 in
  Z.land (Z.lnot val) 255.

(** Why the listener thread ended. *)
Inductive halt :=
| DeviceFailed        (* a read raised; the [except] clauses [break] *)
| Uncaught.           (* parse_payload raised IndexError, which [run] does not catch *)

(** What a run of the listener did: the final headset, the handler calls in
    order, and the payloads it passed to [parse_payload], in order. *)
Record session := mkSession {
  stop     : halt;
  final    : Headset;
  calls    : list call;
  payloads : list (list byte)
}.

Definition after (cs : list call) (payload : list byte) (r : option session)
  : option session :=
  match r with
  | Some t => Some (mkSession (stop t) (final t) (cs ++ calls t)
                              (payload :: payloads t))
  | None => None
  end.

(** The loop [while True] of [run], with a bound on its turns; [None] is the
    bound reached. *)
Fixpoint run (fuel : nat) (s : list byte) (h : Headset) : option session :=
  match fuel with
  | O => None
  | S fuel' =>
      match read 1 s with
      | None => Some (mkSession DeviceFailed h [] [])
      | Some (first_byte, s) =>
          if bytes_eqb first_byte [SYNC] then
            match read 1 s with
            | None => Some (mkSession DeviceFailed h [] [])
            | Some (second_byte, s) =>
                if bytes_eqb second_byte [SYNC] then
                  match read_plength s with
                  | None => Some (mkSession DeviceFailed h [] [])
                  | Some (plength, s) =>
                      if plength >? 170 then run fuel' s h
                      else
                        match read (Z.to_nat plength) s with
                        | None => Some (mkSession DeviceFailed h [] [])
                        | Some (payload, s) =>
                            let val := checksum payload in
                            match read 1 s with
                            | None => Some (mkSession DeviceFailed h [] [])
                            | Some (chksum_byte, s) =>
                                let chksum := int_from_bytes chksum_byte in
                                if true (* ignore bad checksums *) then
                                  match parse_payload payload h with
                                  | None => None
                                  | Some (IndexError, h', cs) =>
                                      Some (mkSession Uncaught h' cs [payload])
                                  | Some (Returned, h', cs) =>
                                      after cs payload (run fuel' s h')
                                  end
                                else run fuel' s h
                            end
                        end
                  end
                else run fuel' s h
            end
          else run fuel' s h
      end
  end.

(** Every turn reads at least one byte, so [len(s) + 1] turns are enough
    (lemma [run_fuel]). *)
Definition listen (s : list byte) (h : Headset) : option session :=
  run (S (List.length s)) s h.

(** ** connect, autoconnect, disconnect (lines 242-265) *)

(** [bytes.fromhex(s)] as CPython (3.7 and later) has it: ASCII whitespace
    is skipped before a byte, a byte is two hexadecimal digits of either
    case, and anything else raises [ValueError] ([None]). *)
Definition isspace (c : ascii) : bool :=
  let n := N_of_ascii c in
  ((n =? 32) || ((9 <=? n) && (n <=? 13)))%N.

Definition digit_value (c : ascii) : option N :=
  let n := N_of_ascii c in
  if ((48 <=? n) && (n <=? 57))%N then Some (n - 48)%N
  else if ((97 <=? n) && (n <=? 102))%N then Some (n - 87)%N
  else if ((65 <=? n) && (n <=? 70))%N then Some (n - 55)%N
  else None.

Fixpoint fromhex (s : string) : option (list byte) :=
  match s with
  | EmptyString => Some []
  | String c s' =>
      if isspace c then fromhex s'
      else
        match digit_value c, s' with
        | Some top, String d s'' =>
            match digit_value d, fromhex s'' with
            | Some bot, Some bs =>
                match Byte.of_N (top * 16 + bot) with
                | Some b => Some (b :: bs)
                | None => None
                end
            | _, _ => None
            end
        | _, _ => None
        end
  end.

(** The truth value of a [headset_id] that is [None] or a [str]. *)
Definition truthy (id : option string) : bool :=
  match id with
  | None | Some EmptyString => false
  | Some _ => true
  end.

(** What a call did to the dongle: the byte strings it wrote, one per
    [write], or the exception that left it. *)
Inductive sent :=
| Wrote (ws : list (list byte))
| ValueError
| TypeError.

Definition autoconnect : sent := Wrote [[AUTOCONNECT]].

Definition disconnect : sent := Wrote [[DISCONNECT]].

(** [connect], called with [None] or a [str] ([id], the argument
    [headset_id]) on a headset whose serial port is open.  A [str] goes
    through [bytes.fromhex]; [CONNECT + None] would be a [TypeError]. *)
Definition connect (id : option string) (h : Headset) : Headset * sent :=
  let send (id : option string) (h : Headset) :=
    match id with
    | Some s =>
        match fromhex s with
        | Some headset_id_bytes => (h, Wrote [CONNECT :: headset_id_bytes])
        | None => (h, ValueError)
        end
    | None => (h, TypeError)
    end in
  if truthy id then
    let h := set_headset_id id h in
    send id h
  else
    let id := headset_id h in
    if negb (truthy id) then (h, autoconnect)
    else send id h.

(** * The vocabulary of the statements *)

(** A turn seen from [k] bytes further left in the payload. *)
Definition shift (k : nat) (t : turn) : turn :=
  match t with
  | Next i h cs => Next (k + i) h cs
  | Break => Break
  | Raise => Raise
  end.

(** What [run] does with a payload it has framed, [k] being the rest of the
    loop. *)
Definition deliver (payload : list byte) (h : Headset)
  (k : Headset -> option session) : option session :=
  match parse_payload payload h with
  | None => None
  | Some (IndexError, h', cs) => Some (mkSession Uncaught h' cs [payload])
  | Some (Returned, h', cs) => after cs payload (k h')
  end.

(** A new headset with handler [1] in the list [r]. *)
Definition listening (r : registry) : Headset :=
  append_handler r 1%nat (Headset_init None).

(** A new headset with handler [1] in [r1] and handler [2] in [r2]. *)
Definition listening2 (r1 r2 : registry) : Headset :=
  append_handler r2 2%nat (append_handler r1 1%nat (Headset_init None)).

(** The checksum of the wire format, in the words of the specification:
    the complement of the low byte of the sum of all payload bytes. *)
Definition spec_checksum (payload : list byte) : Z :=
  Z.lnot (fold_right Z.add 0 (map ord payload) mod 256) mod 256.

(** A packet as the wire format has it: two [SYNC] bytes, the length, the
    payload, the checksum byte. *)
Definition packet (len : byte) (payload : list byte) (c : byte) : list byte :=
  SYNC :: SYNC :: len :: payload ++ [c].

(** No two neighbouring bytes are both [SYNC]. *)
Fixpoint no_sync_pair (g : list byte) : bool :=
  match g with
  | [] => true
  | a :: g' =>
      match g' with
      | [] => true
      | b :: _ => negb (Byte.eqb a SYNC && Byte.eqb b SYNC)
      end && no_sync_pair g'
  end.

(** A payload of [POOR_SIGNAL] rows with the values [vs]. *)
Definition poor_rows (vs : list byte) : list byte :=
  flat_map (fun v => [POOR_SIGNAL; v]) vs.

(** The calls such rows are to make, row by row, from the stored level
    [old]: the [poor_signal_handlers] where the level leaves 0, the
    [good_signal_handlers] where it comes back to 0. *)
Fixpoint edge_calls (h : Headset) (old : Z) (vs : list byte) : list call :=
  match vs with
  | [] => []
  | v :: vs' =>
      (if (old =? 0) && negb (ord v =? 0)
       then fire poor_signal_handlers (IntArg (ord v)) h
       else if negb (old =? 0) && (ord v =? 0)
       then fire good_signal_handlers (IntArg (ord v)) h
       else [])
      ++ edge_calls h (ord v) vs'
  end.

(** The level stored after such rows. *)
Definition last_level (old : Z) (vs : list byte) : Z :=
  fold_left (fun _ v => ord v) vs old.

(** Four [STANDBY_SCAN] rows, each with one value byte: 1, 1, 0, 1. *)
Definition scan4 : list byte :=
  [xd4; x01; x01; xd4; x01; x01; xd4; x01; x00; xd4; x01; x01].

(** The code of the row that a turn at [index] decodes: the first byte from
    [index] on that the [EXCODE] loop stops at. *)
Definition row_code (payload : list byte) (index : nat) : option Z :=
  match getitem payload index with
  | None => None
  | Some code =>
      let '(code, _, _) :=
        excode_loop (skipn (S index) payload) code (S index) 0 in
      Some code
  end.

(** A data row of the wire format: [excodes] bytes [EXCODE], the code, and
    either one value byte or a length byte and the value. *)
Inductive row :=
| Single (excodes : nat) (code value : byte)
| Multi (excodes : nat) (code vlength : byte) (value : list byte).

(** The code of a [Single] row is below [0x80] and is not [EXCODE]; the
    code of a [Multi] row is [0x80] or more and its length byte is the
    length of its value. *)
Definition row_ok (r : row) : bool :=
  match r with
  | Single _ c _ => (ord c <? 128) && negb (ord c =? ord EXCODE)
  | Multi _ c vl value =>
      (128 <=? ord c) && (ord vl =? Z.of_nat (List.length value))
  end.

Definition row_bytes (r : row) : list byte :=
  match r with
  | Single k c v => repeat EXCODE k ++ [c; v]
  | Multi k c vl value => repeat EXCODE k ++ c :: vl :: value
  end.

(** What [parse_payload] does for one row, [None] when it raises. *)
Definition dispatch_row (r : row) (h : Headset)
  : option (Headset * list call) :=
  match r with
  | Single _ c v => Some (dispatch_single (ord c) (ord v) h)
  | Multi _ c vl value => dispatch_multi (ord c) (ord vl) value h
  end.

(** The rows dispatched one after the other, up to the first that raises. *)
Fixpoint apply_rows (rs : list row) (h : Headset)
  : ending * Headset * list call :=
  match rs with
  | [] => (Returned, h, [])
  | r :: rs' =>
      match dispatch_row r h with
      | None => (IndexError, h, [])
      | Some (h', cs) =>
          let '(e, h'', cs') := apply_rows rs' h' in (e, h'', cs ++ cs')
      end
  end.

(** The fields of a headset are in the ranges of what they hold: a byte,
    or a signed 16-bit sample. *)
Definition in_range (h : Headset) : Prop :=
  0 <= poor_signal h <= 255 /\ 0 <= attention h <= 255 /\
  0 <= meditation h <= 255 /\ 0 <= blink h <= 255 /\
  -32768 <= raw_value h <= 32767.

(** The call is a call of a handler that is in the list it names. *)
Definition registered (h : Headset) (c : call) : Prop :=
  In (callee c) (handlers h (via c)).

(** The ten codes that [parse_payload] acts on. *)
Definition known_codes : list Z :=
  map ord [POOR_SIGNAL; ATTENTION; MEDITATION; BLINK; RAW_VALUE;
           HEADSET_CONNECTED; HEADSET_NOT_FOUND; HEADSET_DISCONNECTED;
           REQUEST_DENIED; STANDBY_SCAN].

(** A stretch of the wire: noise, then a packet. *)
Record segment := mkSegment {
  noise       : list byte;
  seg_length  : byte;
  seg_payload : list byte;
  seg_chksum  : byte
}.

Definition segment_ok (g : segment) : bool :=
  no_sync_pair (noise g)
  && (ord (seg_length g) =? Z.of_nat (List.length (seg_payload g)))
  && (ord (seg_length g) <? 170).

Definition segment_bytes (g : segment) : list byte :=
  noise g ++ packet (seg_length g) (seg_payload g) (seg_chksum g).

(** The payloads delivered one after the other, then the rest of the loop. *)
Fixpoint deliver_all (ps : list (list byte)) (h : Headset)
  (k : Headset -> option session) : option session :=
  match ps with
  | [] => k h
  | p :: ps' => deliver p h (fun h' => deliver_all ps' h' k)
  end.

(** What one turn of the loop of [run] makes of the bytes of the device,
    before any decoding: a read fails, or bytes are passed over, or a
    payload is framed; [s'] is what is left to read. *)
Inductive framing :=
| Failed
| Skipped (s' : list byte)
| Framed (payload s' : list byte).

Definition frame (s : list byte) : framing :=
  match read 1 s with
  | None => Failed
  | Some (first_byte, s) =>
      if bytes_eqb first_byte [SYNC] then
        match read 1 s with
        | None => Failed
        | Some (second_byte, s) =>
            if bytes_eqb second_byte [SYNC] then
              match read_plength s with
              | None => Failed
              | Some (plength, s) =>
                  if plength >? 170 then Skipped s
                  else
                    match read (Z.to_nat plength) s with
                    | None => Failed
                    | Some (payload, s) =>
                        match read 1 s with
                        | None => Failed
                        | Some (_, s) => Framed payload s
                        end
                    end
              end
            else Skipped s
        end
      else Skipped s
  end.

(** * Properties *)

(** ** Bytes and slices *)

Lemma ord_range (b : byte) : 0 <= ord b < 256.
Proof.
  unfold ord. pose proof (Byte.to_N_bounded b). lia.
Qed.

Lemma getitem_app_r (pre p : list byte) (i : nat) :
  getitem (pre ++ p) (List.length pre + i) = getitem p i.
Proof.
  unfold getitem. rewrite nth_error_app2 by lia.
  replace (List.length pre + i - List.length pre)%nat with i by lia.
  reflexivity.
Qed.

Lemma skipn_app_r (pre p : list byte) (i : nat) :
  skipn (List.length pre + i) (pre ++ p) = skipn i p.
Proof.
  induction pre as [|b pre IH]; simpl; auto.
Qed.

Lemma getitem_Some_lt (bs : list byte) (i : nat) (z : Z) :
  getitem bs i = Some z -> (i < List.length bs)%nat.
Proof.
  unfold getitem. intros H. apply nth_error_Some.
  destruct (nth_error bs i); simpl in H; congruence.
Qed.

(** ** The decoder always makes progress *)

Lemma excode_loop_index (unread : list byte) :
  forall code index excode code' index' excode',
    excode_loop unread code index excode = (code', index', excode') ->
    (index <= index')%nat.
Proof.
  induction unread as [|b unread IH]; intros code index excode c' i' e' H;
    simpl in H; destruct (code =? ord EXCODE).
  - inversion H; lia.
  - inversion H; lia.
  - apply IH in H. lia.
  - inversion H; lia.
Qed.

Lemma parse_turn_advances (payload : list byte) (index : nat) (h : Headset)
  (index' : nat) (h' : Headset) (cs : list call) :
  parse_turn payload index h = Next index' h' cs -> (index + 2 <= index')%nat.
Proof.
  unfold parse_turn. intros H.
  destruct (getitem payload index) as [code|]; [|discriminate].
  destruct (excode_loop (skipn (S index) payload) code (S index) 0)
    as [[c i] e] eqn:E.
  apply excode_loop_index in E.
  destruct (c <? 128).
  - destruct (getitem payload i); [|discriminate].
    destruct (dispatch_single c z h). inversion H; lia.
  - destruct (getitem payload i); [|discriminate].
    destruct (dispatch_multi c z _ h) as [[h1 cs1]|]; [|discriminate].
    inversion H; lia.
Qed.

Lemma parse_loop_total (fuel : nat) :
  forall payload index h,
    (List.length payload - index < fuel)%nat ->
    exists r, parse_loop fuel payload index h = Some r.
Proof.
  induction fuel as [|fuel IH]; intros payload index h Hf; [lia|].
  simpl. destruct (index <? List.length payload)%nat eqn:Hlt.
  - apply Nat.ltb_lt in Hlt.
    destruct (parse_turn payload index h) as [i' h' cs| |] eqn:T; eauto.
    apply parse_turn_advances in T.
    destruct (IH payload i' h') as [[[e h''] cs'] R]; [lia|].
    rewrite R. simpl. eauto.
  - eauto.
Qed.

Lemma parse_loop_fuel (fuel : nat) :
  forall fuel' payload index h,
    (List.length payload - index < fuel)%nat ->
    (List.length payload - index < fuel')%nat ->
    parse_loop fuel payload index h = parse_loop fuel' payload index h.
Proof.
  induction fuel as [|fuel IH]; intros fuel' payload index h H1 H2; [lia|].
  destruct fuel' as [|fuel']; [lia|].
  simpl. destruct (index <? List.length payload)%nat eqn:Hlt; auto.
  apply Nat.ltb_lt in Hlt.
  destruct (parse_turn payload index h) as [i' h' cs| |] eqn:T; auto.
  apply parse_turn_advances in T.
  rewrite (IH fuel' payload i' h') by lia. reflexivity.
Qed.

(** ** Decoding behind a prefix *)

Lemma excode_loop_shift (k : nat) (unread : list byte) :
  forall code index excode,
    excode_loop unread code (k + index) excode =
    let '(c, i, e) := excode_loop unread code index excode in (c, (k + i)%nat, e).
Proof.
  induction unread as [|b unread IH]; intros code index excode;
    simpl; destruct (code =? ord EXCODE); auto.
  rewrite plus_n_Sm. apply IH.
Qed.

Lemma parse_turn_app (pre p : list byte) (i : nat) (h : Headset) :
  parse_turn (pre ++ p) (List.length pre + i) h =
  shift (List.length pre) (parse_turn p i h).
Proof.
  unfold parse_turn. rewrite getitem_app_r.
  destruct (getitem p i) as [code|]; [|reflexivity].
  rewrite plus_n_Sm, skipn_app_r, excode_loop_shift.
  destruct (excode_loop (skipn (S i) p) code (S i) 0) as [[c j] e].
  rewrite getitem_app_r.
  destruct (c <? 128).
  - destruct (getitem p j) as [value|]; [|reflexivity].
    destruct (dispatch_single c value h). simpl. f_equal. lia.
  - destruct (getitem p j) as [vlength|]; [|reflexivity].
    rewrite plus_n_Sm, skipn_app_r.
    destruct (dispatch_multi c vlength _ h) as [[h' cs]|]; [|reflexivity].
    simpl. f_equal. lia.
Qed.

Lemma parse_loop_app (fuel : nat) :
  forall pre p i h,
    parse_loop fuel (pre ++ p) (List.length pre + i) h = parse_loop fuel p i h.
Proof.
  induction fuel as [|fuel IH]; intros pre p i h; [reflexivity|].
  simpl. rewrite parse_turn_app.
  replace (List.length pre + i <? List.length (pre ++ p))%nat
    with (i <? List.length p)%nat.
  2:{ rewrite length_app. destruct (i <? List.length p)%nat eqn:E; symmetry.
      - apply Nat.ltb_lt in E. apply Nat.ltb_lt. lia.
      - apply Nat.ltb_ge in E. apply Nat.ltb_ge. lia. }
  destruct (i <? List.length p)%nat; auto.
  destruct (parse_turn p i h) as [j h' cs| |]; simpl; auto.
  rewrite IH. reflexivity.
Qed.

(** A row decoded at the head of a payload, then the rest of the payload. *)
Lemma parse_payload_row (row rest : list byte) (h h' : Headset)
  (cs : list call) :
  parse_turn (row ++ rest) 0 h = Next (List.length row) h' cs ->
  parse_payload (row ++ rest) h = and_then cs (parse_payload rest h').
Proof.
  intros T. pose proof (parse_turn_advances _ _ _ _ _ _ T) as A.
  unfold parse_payload. simpl parse_loop at 1.
  rewrite length_app.
  replace (0 <? List.length row + List.length rest)%nat with true
    by (symmetry; apply Nat.ltb_lt; lia).
  rewrite T. f_equal.
  rewrite <- (Nat.add_0_r (List.length row)) at 2.
  rewrite parse_loop_app. apply parse_loop_fuel; lia.
Qed.

Lemma parse_payload_raise (payload : list byte) (h : Headset) :
  parse_turn payload 0 h = Raise ->
  parse_payload payload h = Some (IndexError, h, []).
Proof.
  intros T. unfold parse_payload. simpl.
  destruct payload as [|b payload]; [discriminate|].
  simpl. rewrite T. reflexivity.
Qed.

Lemma excode_loop_other (unread : list byte) (code : Z) (index excode : nat) :
  code <> ord EXCODE ->
  excode_loop unread code index excode = (code, index, excode).
Proof.
  intros H. apply Z.eqb_neq in H.
  destruct unread; simpl; rewrite H; reflexivity.
Qed.

(** The turn of a well-formed row with a one-byte value. *)
Lemma single_row_turn (c v : byte) (rest : list byte) (h : Headset) :
  ord c < 128 -> ord c <> ord EXCODE ->
  parse_turn (c :: v :: rest) 0 h =
  Next 2 (fst (dispatch_single (ord c) (ord v) h))
         (snd (dispatch_single (ord c) (ord v) h)).
Proof.
  intros Hlt Hne. unfold parse_turn.
  change (getitem (c :: v :: rest) 0) with (Some (ord c)).
  cbv beta iota zeta. rewrite excode_loop_other by assumption.
  replace (ord c <? 128) with true by (symmetry; apply Z.ltb_lt; lia).
  change (getitem (c :: v :: rest) 1) with (Some (ord v)).
  cbv beta iota. destruct (dispatch_single (ord c) (ord v) h); reflexivity.
Qed.

(** The turn of a well-formed row with a length-prefixed value. *)
Lemma multi_row_turn (c vl : byte) (value rest : list byte) (h : Headset) :
  128 <= ord c -> ord vl = Z.of_nat (List.length value) ->
  parse_turn (c :: vl :: value ++ rest) 0 h =
  match dispatch_multi (ord c) (ord vl) value h with
  | Some (h', cs) => Next (2 + List.length value) h' cs
  | None => Raise
  end.
Proof.
  intros Hge Hvl. unfold parse_turn.
  change (getitem (c :: vl :: value ++ rest) 0) with (Some (ord c)).
  cbv beta iota zeta.
  rewrite excode_loop_other by (change (ord EXCODE) with 85; lia).
  replace (ord c <? 128) with false by (symmetry; apply Z.ltb_ge; lia).
  change (getitem (c :: vl :: value ++ rest) 1) with (Some (ord vl)).
  cbv beta iota. rewrite Hvl, Nat2Z.id.
  change (skipn 2 (c :: vl :: value ++ rest)) with (value ++ rest).
  rewrite firstn_app, Nat.sub_diag, firstn_all. simpl firstn.
  rewrite app_nil_r.
  destruct (dispatch_multi (ord c) _ value h) as [[h' cs]|]; reflexivity.
Qed.

(** A well-formed row with a length-prefixed value that raises nothing,
    followed by the rest of the payload. *)
Lemma parse_payload_multi_row (c vl : byte) (value rest : list byte)
  (h h' : Headset) (cs : list call) :
  128 <= ord c -> ord vl = Z.of_nat (List.length value) ->
  dispatch_multi (ord c) (ord vl) value h = Some (h', cs) ->
  parse_payload (c :: vl :: value ++ rest) h =
  and_then cs (parse_payload rest h').
Proof.
  intros Hc Hvl D.
  change (c :: vl :: value ++ rest) with ((c :: vl :: value) ++ rest).
  apply parse_payload_row. simpl app.
  rewrite multi_row_turn, D by assumption. reflexivity.
Qed.

(** ** The listener loop *)

Lemma ord_inj (a b : byte) : ord a = ord b -> a = b.
Proof.
  unfold ord. intros H. apply N2Z.inj in H.
  pose proof (Byte.of_to_N a) as Ha. pose proof (Byte.of_to_N b) as Hb.
  rewrite H in Ha. congruence.
Qed.

Lemma bytes_eqb_single (a b : byte) :
  bytes_eqb [a] [b] = Byte.eqb a b.
Proof. simpl. apply andb_true_r. Qed.

Lemma eqb_SYNC_false (b : byte) : b <> SYNC -> Byte.eqb b SYNC = false.
Proof.
  intros H. destruct (Byte.eqb b SYNC) eqn:E; auto.
  apply Byte.byte_dec_bl in E. contradiction.
Qed.

Lemma eqb_SYNC_true : Byte.eqb SYNC SYNC = true.
Proof. reflexivity. Qed.

Lemma int_from_bytes_single (b : byte) : int_from_bytes [b] = ord b.
Proof. unfold int_from_bytes. simpl. reflexivity. Qed.

Lemma read_Some (n : nat) (s a s' : list byte) :
  read n s = Some (a, s') ->
  s = a ++ s' /\ List.length a = n.
Proof.
  unfold read. destruct (n <=? List.length s)%nat eqn:E; [|discriminate].
  apply Nat.leb_le in E. intros H. inversion H; subst. split.
  - symmetry. apply firstn_skipn.
  - apply firstn_length_le. assumption.
Qed.

Lemma read_app (a s : list byte) :
  read (List.length a) (a ++ s) = Some (a, s).
Proof.
  unfold read. rewrite length_app.
  replace (List.length a <=? List.length a + List.length s)%nat with true
    by (symmetry; apply Nat.leb_le; lia).
  rewrite firstn_app, Nat.sub_diag, firstn_all, skipn_app, Nat.sub_diag,
    skipn_all. simpl. rewrite app_nil_r. reflexivity.
Qed.

Lemma read_one (b : byte) (s : list byte) : read 1 (b :: s) = Some ([b], s).
Proof. reflexivity. Qed.

Lemma read_plength_Some (s : list byte) :
  forall plength s',
    read_plength s = Some (plength, s') ->
    (List.length s' < List.length s)%nat /\ plength <> 170.
Proof.
  induction s as [|b s IH]; intros plength s' H; simpl in H; [discriminate|].
  rewrite int_from_bytes_single in H.
  destruct (ord b =? 170) eqn:E; simpl in H.
  - apply IH in H. simpl. lia.
  - inversion H; subst. apply Z.eqb_neq in E. simpl. lia.
Qed.

(** Past a run of [SYNC] bytes, the length loop stops at the first other
    byte. *)
Lemma read_plength_run (k : nat) (len : byte) (s : list byte) :
  len <> SYNC ->
  read_plength (repeat SYNC k ++ len :: s) = Some (ord len, s).
Proof.
  intros H. induction k as [|k IH]; simpl.
  - rewrite int_from_bytes_single.
    destruct (ord len =? 170) eqn:E; auto.
    apply Z.eqb_eq in E. exfalso. apply H. apply ord_inj. exact E.
  - exact IH.
Qed.

Ltac run_cases IH :=
  repeat match goal with
  | |- context [match read 1 ?s with _ => _ end] =>
      let E := fresh "E" in
      destruct (read 1 s) as [[? ?]|] eqn:E;
      [apply read_Some in E; destruct E as [? ?]; subst|]
  | |- context [match read (Z.to_nat ?n) ?s with _ => _ end] =>
      let E := fresh "E" in
      destruct (read (Z.to_nat n) s) as [[? ?]|] eqn:E;
      [apply read_Some in E; destruct E as [? ?]; subst|]
  | |- context [match read_plength ?s with _ => _ end] =>
      let E := fresh "E" in
      destruct (read_plength s) as [[? ?]|] eqn:E;
      [apply read_plength_Some in E; destruct E as [? ?]|]
  | |- context [if bytes_eqb ?a ?b then _ else _] =>
      destruct (bytes_eqb a b)
  | |- context [if ?a >? 170 then _ else _] => destruct (a >? 170)
  end.

Lemma run_fuel (fuel : nat) :
  forall fuel' s h,
    (List.length s < fuel)%nat -> (List.length s < fuel')%nat ->
    run fuel s h = run fuel' s h.
Proof.
  induction fuel as [|fuel IH]; intros fuel' s h H1 H2; [lia|].
  destruct fuel' as [|fuel']; [lia|].
  cbn [run]. run_cases IH; auto;
    repeat rewrite length_app in *;
    try (apply IH; repeat rewrite length_app; lia).
  match goal with
  | |- context [parse_payload ?p h] =>
      destruct (parse_payload p h) as [[[[] h'] cs]|]; auto
  end.
  apply f_equal. apply IH; lia.
Qed.

Lemma run_total (fuel : nat) :
  forall s h,
    (List.length s < fuel)%nat -> exists t, run fuel s h = Some t.
Proof.
  induction fuel as [|fuel IH]; intros s h H1; [lia|].
  cbn [run]. run_cases IH; eauto;
    repeat rewrite length_app in *;
    try (apply IH; repeat rewrite length_app; lia).
  match goal with
  | |- context [parse_payload ?p h] =>
      destruct (parse_loop_total (S (List.length p)) p 0 h)
        as [[[e h'] cs] P]; [lia|];
      unfold parse_payload; rewrite P
  end.
  destruct e; eauto.
  match goal with
  | |- context [run fuel ?s h'] =>
      destruct (IH s h') as [t R]; [lia|]; rewrite R
  end.
  simpl. eauto.
Qed.

Lemma listen_nil (h : Headset) :
  listen [] h = Some (mkSession DeviceFailed h [] []).
Proof. reflexivity. Qed.

(** A byte that is not [SYNC] is skipped. *)
Lemma listen_skip (b : byte) (s : list byte) (h : Headset) :
  b <> SYNC -> listen (b :: s) h = listen s h.
Proof.
  intros H. unfold listen. simpl List.length.
  remember (S (List.length s)) as n eqn:En. cbn [run].
  rewrite read_one, bytes_eqb_single.
  rewrite eqb_SYNC_false by assumption.
  reflexivity.
Qed.

(** A [SYNC] byte followed by another byte is skipped with it. *)
Lemma listen_false_sync (b : byte) (s : list byte) (h : Headset) :
  b <> SYNC -> listen (SYNC :: b :: s) h = listen s h.
Proof.
  intros H. remember (listen s h) as r eqn:Er. unfold listen.
  remember (List.length (SYNC :: b :: s)) as n eqn:En. cbn [run].
  rewrite read_one, bytes_eqb_single, eqb_SYNC_true.
  rewrite read_one, bytes_eqb_single.
  rewrite eqb_SYNC_false by assumption.
  subst r. simpl in En. apply run_fuel; lia.
Qed.

(** Two [SYNC] bytes, any further [SYNC] bytes, a length other than 170 and
    that many bytes, and one more byte: the payload is delivered. *)
Lemma listen_packet (k : nat) (len : byte) (payload : list byte) (c : byte)
  (s : list byte) (h : Headset) :
  ord len = Z.of_nat (List.length payload) -> ord len < 170 ->
  listen (SYNC :: SYNC :: repeat SYNC k ++ len :: payload ++ c :: s) h =
  deliver payload h (listen s).
Proof.
  intros Hlen Hlt. unfold listen at 1.
  remember (List.length
              (SYNC :: SYNC :: repeat SYNC k ++ len :: payload ++ c :: s))
    as n eqn:En.
  cbn [run].
  rewrite read_one, bytes_eqb_single, eqb_SYNC_true.
  rewrite read_one, bytes_eqb_single, eqb_SYNC_true.
  rewrite read_plength_run
    by (intros ->; change (ord SYNC) with 170 in Hlt; lia).
  replace (ord len >? 170) with false
    by (symmetry; rewrite Z.gtb_ltb; apply Z.ltb_ge; lia).
  rewrite Hlen, Nat2Z.id, read_app, read_one.
  unfold deliver.
  destruct (parse_payload payload h) as [[[[] h'] cs]|]; auto.
  apply f_equal. unfold listen. apply run_fuel; [|lia].
  subst n. simpl. rewrite length_app. simpl. rewrite length_app. simpl. lia.
Qed.

Lemma listen_packet0 (len : byte) (payload : list byte) (c : byte)
  (s : list byte) (h : Headset) :
  ord len = Z.of_nat (List.length payload) -> ord len < 170 ->
  listen (SYNC :: SYNC :: len :: payload ++ c :: s) h =
  deliver payload h (listen s).
Proof. exact (listen_packet 0 len payload c s h). Qed.

(** ** The checksum of a payload *)

Lemma removelast_snoc (p : list byte) (b : byte) : removelast (p ++ [b]) = p.
Proof.
  rewrite removelast_app by discriminate. simpl. apply app_nil_r.
Qed.

Lemma land_255 (z : Z) : Z.land z 255 = z mod 256.
Proof. change 255 with (Z.ones 8). rewrite Z.land_ones by lia. reflexivity. Qed.

(** [run] sums [payload[:-1]]: its [val] is the wire checksum of the payload
    without its last byte. *)
Lemma checksum_drops_last (p : list byte) (b : byte) :
  checksum (p ++ [b]) = spec_checksum p.
Proof.
  unfold checksum, spec_checksum. rewrite removelast_snoc, !land_255.
  reflexivity.
Qed.

(** C1.  The value [run] computes for the payload [04 32] is [0xFB], the
    complement of [0x04] alone, where the checksum over all payload bytes
    is [0xC9]: the sum of lines 75-77 leaves the last payload byte out. *)
Theorem checksum_misses_last_byte :
  checksum [x04; x32] = 251 /\
  spec_checksum [x04; x32] = 201 /\
  checksum [x04; x32] <> spec_checksum [x04; x32].
Proof.
  repeat split. vm_compute. discriminate.
Qed.

(** ** Truncated rows *)

(** A read of a code, value or length byte past the end of the payload ends
    the call silently, with nothing changed by that turn. *)
Lemma short_read_breaks (payload : list byte) (index : nat) (h : Headset) :
  (index < List.length payload)%nat ->
  parse_turn payload index h = Break ->
  parse_loop (S (List.length payload)) payload index h = Some (Returned, h, []).
Proof.
  intros Hlt T. cbn [parse_loop].
  apply Nat.ltb_lt in Hlt. rewrite Hlt, T. reflexivity.
Qed.

(** A [RAW_VALUE] row whose value has fewer than two bytes raises, whatever
    length it announces. *)
Lemma dispatch_raw_short (h : Headset) (vlength : Z) (value : list byte) :
  (List.length value < 2)%nat ->
  dispatch_multi (ord RAW_VALUE) vlength value h = None.
Proof.
  intros H. unfold dispatch_multi, dispatch_raw. rewrite Z.eqb_refl.
  destruct value as [|a [|b value]]; try reflexivity.
  simpl in H. lia.
Qed.

(** A [STANDBY_SCAN] row that announces one value byte and has none is
    dispatched all the same, as a row with an empty value. *)
Lemma short_value_dispatched (h : Headset) :
  parse_payload [xd4; x01] h =
  Some (Returned, set_status (Some STATUS_STANDBY) h,
        if status_ne (status h) STATUS_STANDBY
        then fire standby_handlers NoArg h else []).
Proof.
  destruct h as [i p a m b r [[]|] hs];
    cbv -[fire app]; rewrite ?app_nil_r; reflexivity.
Qed.

(** C2.  A [RAW_VALUE] row that announces two value bytes and has one: the
    slice is short, [value[1]] raises [IndexError], and the error leaves
    [parse_payload]; [run] does not catch it, so the listener ends and the
    packet that follows is never read. *)
Theorem short_raw_value_raises (h : Headset) (c : byte) (rest : list byte) :
  parse_payload [x80; x02; x01] h = Some (IndexError, h, []) /\
  listen (SYNC :: SYNC :: x03 :: [x80; x02; x01] ++ c :: rest) h =
  Some (mkSession Uncaught h [] [[x80; x02; x01]]).
Proof.
  assert (P : parse_payload [x80; x02; x01] h = Some (IndexError, h, []))
    by reflexivity.
  split; [exact P|].
  rewrite listen_packet0 by (cbn; lia).
  unfold deliver. rewrite P. reflexivity.
Qed.

(** ** Termination *)

(** C10.  Every turn of the loop of [parse_payload] that goes on moves the
    index forward (by two at least, also past a row of declared length 0),
    so the call ends within [len(payload) + 1] turns: it has a result, and
    any larger bound on the turns gives the same one. *)
Theorem parse_payload_terminates (payload : list byte) (h : Headset)
  (fuel : nat) :
  (List.length payload < fuel)%nat ->
  (forall index h0 index' h' cs,
      parse_turn payload index h0 = Next index' h' cs ->
      (index < index')%nat) /\
  (exists e h' cs,
      parse_payload payload h = Some (e, h', cs) /\
      parse_loop fuel payload 0 h = Some (e, h', cs)).
Proof.
  intros Hf. split.
  - intros index h0 index' h' cs T. apply parse_turn_advances in T. lia.
  - destruct (parse_loop_total (S (List.length payload)) payload 0 h)
      as [[[e h'] cs] P]; [lia|].
    exists e, h', cs. split; [exact P|].
    rewrite <- P. apply parse_loop_fuel; lia.
Qed.

Lemma parse_payload_terminates_witness :
  (forall index h0 index' h' cs,
      parse_turn [xd3; x00; x04; x32] index h0 = Next index' h' cs ->
      (index < index')%nat) /\
  (exists e h' cs,
      parse_payload [xd3; x00; x04; x32] (Headset_init None)
        = Some (e, h', cs) /\
      parse_loop 9 [xd3; x00; x04; x32] 0 (Headset_init None)
        = Some (e, h', cs)).
Proof.
  apply (parse_payload_terminates [xd3; x00; x04; x32] (Headset_init None) 9).
  simpl. lia.
Defined.

(** ** Packets on the wire *)

Lemma packet_app (len : byte) (payload : list byte) (c : byte)
  (s : list byte) :
  packet len payload c ++ s = SYNC :: SYNC :: len :: payload ++ c :: s.
Proof.
  unfold packet. simpl. rewrite <- app_assoc. reflexivity.
Qed.

(** C4.  A packet is passed to [parse_payload] whatever its checksum byte
    is: the listener does with a packet whose checksum byte is [c] what it
    does with the same packet under any other checksum byte [c'], the
    matching one included. *)
Theorem bad_checksum_ignored (len c c' : byte) (payload s : list byte)
  (h : Headset) :
  ord len = Z.of_nat (List.length payload) -> ord len < 170 ->
  listen (packet len payload c ++ s) h = deliver payload h (listen s) /\
  listen (packet len payload c ++ s) h = listen (packet len payload c' ++ s) h.
Proof.
  intros Hlen Hlt. rewrite !packet_app, !listen_packet0 by assumption.
  split; reflexivity.
Qed.

Lemma bad_checksum_ignored_witness :
  listen (packet x02 [x04; x32] x00 ++ [x07]) (Headset_init None)
    = deliver [x04; x32] (Headset_init None) (listen [x07]) /\
  listen (packet x02 [x04; x32] x00 ++ [x07]) (Headset_init None)
    = listen (packet x02 [x04; x32] xfb ++ [x07]) (Headset_init None).
Proof.
  apply (bad_checksum_ignored x02 x00 xfb [x04; x32] [x07] (Headset_init None)).
  - reflexivity.
  - reflexivity.
Defined.

(** ** Resynchronisation *)

(** The hunt for [SYNC SYNC] gets through such bytes to the packet behind
    them.  When they end in a [SYNC] byte, that byte and the first of the
    packet make the pair, and the second of the packet is read as a length
    of 170 and skipped. *)
Lemma hunt_through (n : nat) :
  forall g len p c s h,
    (List.length g <= n)%nat -> no_sync_pair g = true ->
    ord len = Z.of_nat (List.length p) -> ord len < 170 ->
    listen (g ++ packet len p c ++ s) h = deliver p h (listen s).
Proof.
  induction n as [|n IH]; intros g len p c s h Hn Hg Hlen Hlt.
  - destruct g; [|simpl in Hn; lia].
    rewrite app_nil_l, packet_app. apply listen_packet0; assumption.
  - destruct g as [|a [|b g']].
    + rewrite app_nil_l, packet_app. apply listen_packet0; assumption.
    + rewrite <- app_comm_cons, app_nil_l, packet_app.
      destruct (Byte.byte_eq_dec a SYNC) as [->|Ha].
      * apply (listen_packet 1 len p c s h); assumption.
      * rewrite listen_skip by assumption.
        apply listen_packet0; assumption.
    + rewrite <- !app_comm_cons.
      destruct (Byte.byte_eq_dec a SYNC) as [->|Ha].
      * assert (Hb : b <> SYNC).
        { intros ->. simpl in Hg. discriminate. }
        rewrite listen_false_sync by assumption.
        apply IH; try assumption.
        -- simpl in Hn. lia.
        -- simpl in Hg. apply andb_prop in Hg. destruct Hg as [_ Hg].
           apply andb_prop in Hg. apply Hg.
      * rewrite listen_skip by assumption.
        rewrite app_comm_cons.
        apply IH; try assumption.
        -- simpl in Hn. simpl. lia.
        -- change (no_sync_pair (a :: b :: g'))
             with (negb (Byte.eqb a SYNC && Byte.eqb b SYNC)
                   && no_sync_pair (b :: g')) in Hg.
           apply andb_prop in Hg. apply Hg.
Qed.

(** C3, as the code has it.  A packet, then bytes among which no two
    neighbours are both [SYNC], then another packet: when [parse_payload]
    returns from the first payload, both payloads are passed to it, in
    order, and no other. *)
Theorem resync_after_garbage (len1 c1 len2 c2 : byte) (p1 g p2 : list byte)
  (h h1 : Headset) (cs1 : list call) :
  ord len1 = Z.of_nat (List.length p1) -> ord len1 < 170 ->
  ord len2 = Z.of_nat (List.length p2) -> ord len2 < 170 ->
  no_sync_pair g = true ->
  parse_payload p1 h = Some (Returned, h1, cs1) ->
  exists e h2 cs2,
    parse_payload p2 h1 = Some (e, h2, cs2) /\
    listen (packet len1 p1 c1 ++ g ++ packet len2 p2 c2) h =
    Some (mkSession (match e with
                     | Returned => DeviceFailed
                     | IndexError => Uncaught
                     end) h2 (cs1 ++ cs2) [p1; p2]).
Proof.
  intros Hl1 Hb1 Hl2 Hb2 Hg P1.
  destruct (parse_loop_total (S (List.length p2)) p2 0 h1)
    as [[[e h2] cs2] P2]; [lia|].
  exists e, h2, cs2. split; [exact P2|].
  rewrite packet_app, listen_packet0 by assumption.
  unfold deliver at 1. rewrite P1.
  rewrite <- (app_nil_r (packet len2 p2 c2)).
  rewrite (hunt_through (List.length g)) by (assumption || lia).
  unfold deliver. unfold parse_payload. rewrite P2.
  destruct e; simpl; rewrite ?app_nil_r; reflexivity.
Qed.

Lemma resync_after_garbage_witness :
  exists e h2 cs2,
    parse_payload [x05; x28] (set_attention 50 (Headset_init None))
      = Some (e, h2, cs2) /\
    listen (packet x02 [x04; x32] xc9 ++ [x00; xaa; x17; xaa]
              ++ packet x02 [x05; x28] xd2) (Headset_init None) =
    Some (mkSession (match e with
                     | Returned => DeviceFailed
                     | IndexError => Uncaught
                     end) h2 ([] ++ cs2) [[x04; x32]; [x05; x28]]).
Proof.
  apply (resync_after_garbage x02 xc9 x02 xd2 [x04; x32] [x00; xaa; x17; xaa]
           [x05; x28] (Headset_init None) (set_attention 50 (Headset_init None))
           []).
  - reflexivity.
  - reflexivity.
  - reflexivity.
  - reflexivity.
  - reflexivity.
  - reflexivity.
Defined.

(** C3, as stated, fails: garbage [AA AA 03] is taken for the head of a
    packet of three bytes, which swallows the head of the second packet;
    the payload [05 28] of the second packet is never passed on. *)
Lemma resync_counterexample :
  option_map payloads
    (listen (packet x02 [x04; x32] xc9 ++ [xaa; xaa; x03]
               ++ packet x02 [x05; x28] xd2) (Headset_init None))
  = Some [[x04; x32]; [xaa; xaa; x02]].
Proof. vm_compute. reflexivity. Qed.

(** ** The signal-quality rows *)

Lemma set_poor_signal_same (h : Headset) : set_poor_signal (poor_signal h) h = h.
Proof. destruct h; reflexivity. Qed.

Lemma dispatch_poor_signal (h : Headset) (v : byte) :
  0 <= poor_signal h ->
  dispatch_single (ord POOR_SIGNAL) (ord v) h =
  (set_poor_signal (ord v) h,
   if (poor_signal h =? 0) && negb (ord v =? 0)
   then fire poor_signal_handlers (IntArg (ord v)) h
   else if negb (poor_signal h =? 0) && (ord v =? 0)
   then fire good_signal_handlers (IntArg (ord v)) h
   else []).
Proof.
  intros Hold. pose proof (ord_range v) as Hv.
  unfold dispatch_single. rewrite Z.eqb_refl. cbn [poor_signal set_poor_signal].
  destruct (ord v >? 0) eqn:G; rewrite Z.gtb_ltb in G.
  - apply Z.ltb_lt in G.
    replace (ord v =? 0) with false by (symmetry; apply Z.eqb_neq; lia).
    destruct (poor_signal h =? 0); reflexivity.
  - apply Z.ltb_ge in G.
    replace (ord v =? 0) with true by (symmetry; apply Z.eqb_eq; lia).
    destruct (poor_signal h =? 0) eqn:E; simpl.
    + apply Z.eqb_eq in E. rewrite E. reflexivity.
    + apply Z.eqb_neq in E.
      replace (poor_signal h >? 0) with true
        by (symmetry; rewrite Z.gtb_ltb; apply Z.ltb_lt; lia).
      reflexivity.
Qed.

Lemma edge_calls_set_poor_signal (x : Z) (h : Headset) (vs : list byte) :
  forall old,
    edge_calls (set_poor_signal x h) old vs = edge_calls h old vs.
Proof.
  induction vs as [|v vs IH]; intros old; simpl; [reflexivity|].
  rewrite IH. reflexivity.
Qed.

Lemma poor_rows_calls (vs : list byte) :
  forall h,
    0 <= poor_signal h ->
    parse_payload (poor_rows vs) h =
    Some (Returned, set_poor_signal (last_level (poor_signal h) vs) h,
          edge_calls h (poor_signal h) vs).
Proof.
  induction vs as [|v vs IH]; intros h Hold.
  - simpl. rewrite set_poor_signal_same. reflexivity.
  - change (poor_rows (v :: vs)) with ([POOR_SIGNAL; v] ++ poor_rows vs).
    rewrite (parse_payload_row [POOR_SIGNAL; v] (poor_rows vs) h
               (set_poor_signal (ord v) h)
               (snd (dispatch_single (ord POOR_SIGNAL) (ord v) h))).
    + rewrite IH by (simpl; apply ord_range).
      rewrite dispatch_poor_signal by assumption.
      rewrite edge_calls_set_poor_signal. reflexivity.
    + simpl app. rewrite single_row_turn by (cbn; lia).
      rewrite dispatch_poor_signal by assumption. reflexivity.
Qed.

(** C5, as the code has it.  From a headset whose stored level is not
    negative, a [POOR_SIGNAL] row calls the [poor_signal_handlers] when it
    takes the stored level from 0 to a non-zero value, the
    [good_signal_handlers] when it takes it from a non-zero value to 0,
    and nothing otherwise; over any sequence of such rows the calls are
    those of [edge_calls], row by row.  The values 0, 0, 5, 5, 0 call the
    [poor_signal_handlers] once and the [good_signal_handlers] once, and
    the [good_signal_handlers] once more at the first row unless the
    stored level was 0 before it. *)
Theorem poor_signal_edges (h : Headset) (vs : list byte) :
  0 <= poor_signal h ->
  (forall v : byte,
      dispatch_single (ord POOR_SIGNAL) (ord v) h =
      (set_poor_signal (ord v) h,
       if (poor_signal h =? 0) && negb (ord v =? 0)
       then fire poor_signal_handlers (IntArg (ord v)) h
       else if negb (poor_signal h =? 0) && (ord v =? 0)
       then fire good_signal_handlers (IntArg (ord v)) h
       else [])) /\
  parse_payload (poor_rows vs) h =
  Some (Returned, set_poor_signal (last_level (poor_signal h) vs) h,
        edge_calls h (poor_signal h) vs) /\
  parse_payload (poor_rows [x00; x00; x05; x05; x00]) h =
  Some (Returned, set_poor_signal 0 h,
        (if poor_signal h =? 0 then []
         else fire good_signal_handlers (IntArg 0) h)
        ++ fire poor_signal_handlers (IntArg 5) h
        ++ fire good_signal_handlers (IntArg 0) h).
Proof.
  intros Hold.
  split; [intros v; apply dispatch_poor_signal; assumption|].
  split; [apply poor_rows_calls; assumption|].
  rewrite poor_rows_calls by assumption. cbn [edge_calls last_level fold_left].
  change (ord x00) with 0. change (ord x05) with 5.
  destruct (poor_signal h =? 0); cbn; rewrite ?app_nil_r; reflexivity.
Qed.

Lemma poor_signal_edges_witness :
  dispatch_single (ord POOR_SIGNAL) (ord x09)
    (set_poor_signal 0 (listening2 poor_signal_handlers good_signal_handlers))
  = (set_poor_signal 9
       (listening2 poor_signal_handlers good_signal_handlers),
     [Call poor_signal_handlers 1%nat (IntArg 9)]) /\
  parse_payload (poor_rows [x05; x07; x00])
    (set_poor_signal 0 (listening2 poor_signal_handlers good_signal_handlers))
  = Some (Returned,
          set_poor_signal 0
            (listening2 poor_signal_handlers good_signal_handlers),
          [Call poor_signal_handlers 1%nat (IntArg 5);
           Call good_signal_handlers 2%nat (IntArg 0)]) /\
  parse_payload (poor_rows [x00; x00; x05; x05; x00])
    (set_poor_signal 0 (listening2 poor_signal_handlers good_signal_handlers))
  = Some (Returned,
          set_poor_signal 0
            (listening2 poor_signal_handlers good_signal_handlers),
          [Call poor_signal_handlers 1%nat (IntArg 5);
           Call good_signal_handlers 2%nat (IntArg 0)]).
Proof.
  destruct (poor_signal_edges
              (set_poor_signal 0
                 (listening2 poor_signal_handlers good_signal_handlers))
              [x05; x07; x00]) as (D & Rest).
  - simpl. lia.
  - split; [exact (D x09)|exact Rest].
Defined.

(** C5, as stated, fails on a new headset, whose stored level is 255: the
    first row of 0, 0, 5, 5, 0 already brings the level to 0, and the
    [good_signal_handlers] are called twice. *)
Lemma poor_signal_counterexample :
  option_map snd
    (parse_payload (poor_rows [x00; x00; x05; x05; x00])
       (listening2 poor_signal_handlers good_signal_handlers))
  = Some [Call good_signal_handlers 2%nat (IntArg 0);
          Call poor_signal_handlers 1%nat (IntArg 5);
          Call good_signal_handlers 2%nat (IntArg 0)].
Proof. vm_compute. reflexivity. Qed.

(** ** The raw sample *)

Lemma getitem_nth (value : list byte) (i : nat) :
  (i < List.length value)%nat ->
  getitem value i = Some (ord (nth i value x00)).
Proof.
  intros H. unfold getitem.
  rewrite (nth_error_nth' value x00 H). reflexivity.
Qed.

Lemma dispatch_raw_value (h : Headset) (vlength : Z) (value : list byte) :
  (2 <= List.length value)%nat ->
  let u := ord (nth 0 value x00) * 256 + ord (nth 1 value x00) in
  let raw := if u >=? 32768 then u - 65536 else u in
  dispatch_multi (ord RAW_VALUE) vlength value h =
  Some (set_raw_value raw h, fire raw_value_handlers (IntArg raw) h).
Proof.
  intros H u raw. unfold dispatch_multi, dispatch_raw.
  rewrite Z.eqb_refl, !getitem_nth by lia.
  fold u. fold raw. cbn. rewrite app_nil_r. reflexivity.
Qed.

(** C6.  A [RAW_VALUE] row with two value bytes or more stores
    [v0 * 256 + v1], less 65536 when that is 32768 or more, and calls the
    [raw_value_handlers] with it: so does the dispatch of any such row, and
    so does [parse_payload] on a payload that starts with one.  The stored
    value is the 16-bit two's complement reading of the two bytes and lies
    in [-32768, 32767]; the bytes [7F FF] give 32767, [80 00] give -32768
    and [00 01] give 1. *)
Theorem raw_value_signed16 (h : Headset) (vlength : Z) (value : list byte) :
  (2 <= List.length value)%nat ->
  let u := ord (nth 0 value x00) * 256 + ord (nth 1 value x00) in
  let raw := if u >=? 32768 then u - 65536 else u in
  dispatch_multi (ord RAW_VALUE) vlength value h =
    Some (set_raw_value raw h, fire raw_value_handlers (IntArg raw) h) /\
  (forall (vl : byte) (rest : list byte),
      ord vl = Z.of_nat (List.length value) ->
      parse_payload (RAW_VALUE :: vl :: value ++ rest) h =
      and_then (fire raw_value_handlers (IntArg raw) h)
               (parse_payload rest (set_raw_value raw h))) /\
  raw = (u + 32768) mod 65536 - 32768 /\
  -32768 <= raw <= 32767 /\
  parse_payload [x80; x02; x7f; xff] h =
    Some (Returned, set_raw_value 32767 h,
          fire raw_value_handlers (IntArg 32767) h) /\
  parse_payload [x80; x02; x80; x00] h =
    Some (Returned, set_raw_value (-32768) h,
          fire raw_value_handlers (IntArg (-32768)) h) /\
  parse_payload [x80; x02; x00; x01] h =
    Some (Returned, set_raw_value 1 h,
          fire raw_value_handlers (IntArg 1) h).
Proof.
  intros Hlen u raw.
  assert (Row : forall (vl0 : byte) (value0 rest0 : list byte),
             ord vl0 = Z.of_nat (List.length value0) ->
             (2 <= List.length value0)%nat ->
             parse_payload (RAW_VALUE :: vl0 :: value0 ++ rest0) h =
             let u0 := ord (nth 0 value0 x00) * 256 + ord (nth 1 value0 x00) in
             let raw0 := if u0 >=? 32768 then u0 - 65536 else u0 in
             and_then (fire raw_value_handlers (IntArg raw0) h)
                      (parse_payload rest0 (set_raw_value raw0 h))).
  { intros vl0 value0 rest0 E L.
    apply parse_payload_multi_row; [cbn; lia|assumption|].
    apply dispatch_raw_value. assumption. }
  pose proof (ord_range (nth 0 value x00)) as R0.
  pose proof (ord_range (nth 1 value x00)) as R1.
  split; [apply dispatch_raw_value; assumption|].
  split; [intros vl rest Hvl; apply Row; assumption|].
  repeat split.
  - subst raw. destruct (u >=? 32768) eqn:G.
    + apply Z.geb_le in G.
      replace (u + 32768) with (u - 32768 + 1 * 65536) by lia.
      rewrite Z.mod_add, Z.mod_small by lia. lia.
    + rewrite Z.geb_leb in G. apply Z.leb_gt in G.
      rewrite Z.mod_small by lia. lia.
  - subst raw. destruct (u >=? 32768) eqn:G; [apply Z.geb_le in G|]; lia.
  - subst raw. destruct (u >=? 32768) eqn:G; [|rewrite Z.geb_leb in G;
      apply Z.leb_gt in G]; lia.
  - change [x80; x02; x7f; xff] with (RAW_VALUE :: x02 :: [x7f; xff] ++ []).
    rewrite (Row x02 [x7f; xff] []) by (cbn; lia).
    cbn. rewrite app_nil_r. reflexivity.
  - change [x80; x02; x80; x00] with (RAW_VALUE :: x02 :: [x80; x00] ++ []).
    rewrite (Row x02 [x80; x00] []) by (cbn; lia).
    cbn. rewrite app_nil_r. reflexivity.
  - change [x80; x02; x00; x01] with (RAW_VALUE :: x02 :: [x00; x01] ++ []).
    rewrite (Row x02 [x00; x01] []) by (cbn; lia).
    cbn. rewrite app_nil_r. reflexivity.
Qed.

Lemma raw_value_signed16_witness :
  dispatch_multi (ord RAW_VALUE) 3 [xff; xfe; x09]
    (listening raw_value_handlers) =
    Some (set_raw_value (-2) (listening raw_value_handlers),
          [Call raw_value_handlers 1%nat (IntArg (-2))]) /\
  parse_payload (RAW_VALUE :: x03 :: [xff; xfe; x09] ++ [x04; x32])
    (listening raw_value_handlers) =
    and_then [Call raw_value_handlers 1%nat (IntArg (-2))]
             (parse_payload [x04; x32]
                (set_raw_value (-2) (listening raw_value_handlers))) /\
  -2 = (65534 + 32768) mod 65536 - 32768 /\
  -32768 <= -2 <= 32767 /\
  parse_payload [x80; x02; x7f; xff] (listening raw_value_handlers) =
    Some (Returned, set_raw_value 32767 (listening raw_value_handlers),
          [Call raw_value_handlers 1%nat (IntArg 32767)]) /\
  parse_payload [x80; x02; x80; x00] (listening raw_value_handlers) =
    Some (Returned, set_raw_value (-32768) (listening raw_value_handlers),
          [Call raw_value_handlers 1%nat (IntArg (-32768))]) /\
  parse_payload [x80; x02; x00; x01] (listening raw_value_handlers) =
    Some (Returned, set_raw_value 1 (listening raw_value_handlers),
          [Call raw_value_handlers 1%nat (IntArg 1)]).
Proof.
  destruct (raw_value_signed16 (listening raw_value_handlers) 3
              [xff; xfe; x09]) as (D & Row & Rest).
  - simpl. lia.
  - split; [exact D|]. split; [|exact Rest].
    apply (Row x03 [x04; x32]). reflexivity.
Defined.

(** ** The connection rows *)

(** The byte codes as numbers. *)
Ltac codes :=
  change (ord EXCODE) with 85;
  change (ord POOR_SIGNAL) with 2;
  change (ord ATTENTION) with 4;
  change (ord MEDITATION) with 5;
  change (ord BLINK) with 22;
  change (ord RAW_VALUE) with 128;
  change (ord HEADSET_CONNECTED) with 208;
  change (ord HEADSET_NOT_FOUND) with 209;
  change (ord HEADSET_DISCONNECTED) with 210;
  change (ord REQUEST_DENIED) with 211;
  change (ord STANDBY_SCAN) with 212.

Lemma dispatch_standby_scan (h : Headset) (vlength : Z) (value : list byte) :
  let scanning :=
    match value with b :: _ => negb (ord b =? 0) | [] => false end in
  let target := if scanning then STATUS_SCANNING else STATUS_STANDBY in
  dispatch_multi (ord STANDBY_SCAN) vlength value h =
  Some (set_status (Some target) h,
        if status_ne (status h) target
        then fire (if scanning then scanning_handlers else standby_handlers)
                  NoArg h
        else []).
Proof.
  unfold dispatch_multi, dispatch_raw, dispatch_link.
  codes. cbn [Z.eqb Pos.eqb]. cbv iota beta.
  destruct value as [|b value]; cbn [getitem nth_error option_map].
  - destruct (status_ne (status h) STATUS_STANDBY); reflexivity.
  - destruct (ord b =? 0); cbn [negb];
      match goal with
      | |- context [status_ne (status h) ?c] =>
          destruct (status_ne (status h) c); reflexivity
      end.
Qed.

Lemma dispatch_headset_connected (h : Headset) (vlength : Z)
  (value : list byte) :
  dispatch_multi (ord HEADSET_CONNECTED) vlength value h =
  Some (set_headset_id (Some (hex value))
          (set_status (Some STATUS_CONNECTED) h),
        if status_ne (status h) STATUS_CONNECTED
        then fire headset_connected_handlers NoArg h else []).
Proof.
  unfold dispatch_multi, dispatch_raw, dispatch_link.
  codes. cbn [Z.eqb Pos.eqb]. cbv iota beta.
  destruct (status_ne (status h) STATUS_CONNECTED); reflexivity.
Qed.

(** C7.  A [STANDBY_SCAN] row sets [status] to scanning when its value has
    a first byte that is not 0, and to standby otherwise, an empty value
    included; it calls the [scanning_handlers], or the [standby_handlers],
    only when [status] was not that already: so does the dispatch of any
    such row, and so does [parse_payload] on a payload that starts with
    one.  With the values 1, 1, 0, 1, on a headset that is not scanning,
    the [scanning_handlers] are called at the first and the fourth row, the
    [standby_handlers] at the third, and nothing at the second. *)
Theorem standby_scan_edges (h : Headset) :
  (forall (vlength : Z) (value : list byte),
      let scanning :=
        match value with b :: _ => negb (ord b =? 0) | [] => false end in
      let target := if scanning then STATUS_SCANNING else STATUS_STANDBY in
      dispatch_multi (ord STANDBY_SCAN) vlength value h =
      Some (set_status (Some target) h,
            if status_ne (status h) target
            then fire (if scanning then scanning_handlers
                       else standby_handlers) NoArg h
            else [])) /\
  (forall (vl : byte) (value rest : list byte),
      ord vl = Z.of_nat (List.length value) ->
      let scanning :=
        match value with b :: _ => negb (ord b =? 0) | [] => false end in
      let target := if scanning then STATUS_SCANNING else STATUS_STANDBY in
      parse_payload (STANDBY_SCAN :: vl :: value ++ rest) h =
      and_then
        (if status_ne (status h) target
         then fire (if scanning then scanning_handlers else standby_handlers)
                   NoArg h
         else [])
        (parse_payload rest (set_status (Some target) h))) /\
  (status h <> Some STATUS_SCANNING ->
   let hs := set_status (Some STATUS_SCANNING) h in
   let hb := set_status (Some STATUS_STANDBY) h in
   parse_turn scan4 0 h = Next 3 hs (fire scanning_handlers NoArg h) /\
   parse_turn scan4 3 hs = Next 6 hs [] /\
   parse_turn scan4 6 hs = Next 9 hb (fire standby_handlers NoArg h) /\
   parse_turn scan4 9 hb = Next 12 hs (fire scanning_handlers NoArg h) /\
   parse_payload scan4 h =
   Some (Returned, hs,
         fire scanning_handlers NoArg h ++ fire standby_handlers NoArg h
         ++ fire scanning_handlers NoArg h)).
Proof.
  split; [|split].
  - intros vlength value. apply dispatch_standby_scan.
  - intros vl value rest Hvl scanning target.
    apply parse_payload_multi_row; [cbn; lia|assumption|].
    apply dispatch_standby_scan.
  - intros Hst hs hb.
    assert (T1 : parse_turn scan4 0 h
                 = Next 3 hs (fire scanning_handlers NoArg h)).
    { destruct h as [i p a m b r [[]|] hd]; try reflexivity.
      exfalso. apply Hst. reflexivity. }
    assert (T2 : parse_turn scan4 3 hs = Next 6 hs []) by reflexivity.
    assert (T3 : parse_turn scan4 6 hs
                 = Next 9 hb (fire standby_handlers NoArg h)) by reflexivity.
    assert (T4 : parse_turn scan4 9 hb
                 = Next 12 hs (fire scanning_handlers NoArg h)) by reflexivity.
    repeat split; try assumption.
    unfold parse_payload.
    change (S (List.length scan4)) with 13%nat.
    cbn [parse_loop]. change (List.length scan4) with 12%nat.
    cbn [Nat.ltb Nat.leb]. rewrite T1. cbn [Nat.ltb Nat.leb]. rewrite T2.
    cbn [Nat.ltb Nat.leb]. rewrite T3. cbn [Nat.ltb Nat.leb]. rewrite T4.
    cbn [Nat.ltb Nat.leb and_then app]. rewrite app_nil_r. reflexivity.
Qed.

Lemma standby_scan_edges_witness :
  parse_payload (STANDBY_SCAN :: x00 :: [] ++ [x04; x32])
    (listening2 scanning_handlers standby_handlers) =
    and_then [Call standby_handlers 2%nat NoArg]
      (parse_payload [x04; x32]
         (set_status (Some STATUS_STANDBY)
            (listening2 scanning_handlers standby_handlers))) /\
  parse_turn scan4 0 (listening2 scanning_handlers standby_handlers) =
    Next 3 (set_status (Some STATUS_SCANNING)
              (listening2 scanning_handlers standby_handlers))
         [Call scanning_handlers 1%nat NoArg] /\
  parse_turn scan4 3
    (set_status (Some STATUS_SCANNING)
       (listening2 scanning_handlers standby_handlers)) =
    Next 6 (set_status (Some STATUS_SCANNING)
              (listening2 scanning_handlers standby_handlers)) [] /\
  parse_turn scan4 6
    (set_status (Some STATUS_SCANNING)
       (listening2 scanning_handlers standby_handlers)) =
    Next 9 (set_status (Some STATUS_STANDBY)
              (listening2 scanning_handlers standby_handlers))
         [Call standby_handlers 2%nat NoArg] /\
  parse_turn scan4 9
    (set_status (Some STATUS_STANDBY)
       (listening2 scanning_handlers standby_handlers)) =
    Next 12 (set_status (Some STATUS_SCANNING)
               (listening2 scanning_handlers standby_handlers))
         [Call scanning_handlers 1%nat NoArg] /\
  parse_payload scan4 (listening2 scanning_handlers standby_handlers) =
    Some (Returned,
          set_status (Some STATUS_SCANNING)
            (listening2 scanning_handlers standby_handlers),
          [Call scanning_handlers 1%nat NoArg;
           Call standby_handlers 2%nat NoArg;
           Call scanning_handlers 1%nat NoArg]).
Proof.
  destruct (standby_scan_edges (listening2 scanning_handlers standby_handlers))
    as (_ & Row & Four).
  split.
  - apply (Row x00 [] [x04; x32]). reflexivity.
  - apply Four. simpl. discriminate.
Defined.

(** C8.  A [HEADSET_CONNECTED] row always sets [status] to connected and
    [headset_id] to the hexadecimal text of its value: the headset it
    leaves has [status = Some STATUS_CONNECTED] and
    [headset_id = Some (hex value)], whatever they were.  It calls the
    [headset_connected_handlers] only when [status] was not connected
    before: so does the dispatch of any such row, and so does
    [parse_payload] on a payload that starts with one.  Two such rows in a
    row make the calls of the first one only, so each handler is called
    once at most, and leave the id of the second. *)
Theorem headset_connected_once (h : Headset) (vl1 vl2 : byte)
  (v1 v2 rest : list byte) :
  ord vl1 = Z.of_nat (List.length v1) ->
  ord vl2 = Z.of_nat (List.length v2) ->
  let connected := set_status (Some STATUS_CONNECTED) h in
  let cs := if status_ne (status h) STATUS_CONNECTED
            then fire headset_connected_handlers NoArg h else [] in
  (forall vlength : Z,
      dispatch_multi (ord HEADSET_CONNECTED) vlength v1 h =
      Some (set_headset_id (Some (hex v1)) connected, cs)) /\
  (forall vlength : Z,
      dispatch_multi (ord HEADSET_CONNECTED) vlength v2
        (set_headset_id (Some (hex v1)) connected) =
      Some (set_headset_id (Some (hex v2)) connected, [])) /\
  parse_payload (HEADSET_CONNECTED :: vl1 :: v1 ++ rest) h =
    and_then cs
      (parse_payload rest (set_headset_id (Some (hex v1)) connected)) /\
  parse_payload
    (HEADSET_CONNECTED :: vl1 :: v1 ++ HEADSET_CONNECTED :: vl2 :: v2 ++ rest)
    h =
    and_then cs
      (parse_payload rest (set_headset_id (Some (hex v2)) connected)) /\
  (forall vlength : Z,
      exists h1,
        dispatch_multi (ord HEADSET_CONNECTED) vlength v1 h = Some (h1, cs) /\
        status h1 = Some STATUS_CONNECTED /\
        headset_id h1 = Some (hex v1)) /\
  (exists h1,
      parse_payload (HEADSET_CONNECTED :: vl1 :: v1) h
        = Some (Returned, h1, cs) /\
      status h1 = Some STATUS_CONNECTED /\
      headset_id h1 = Some (hex v1)) /\
  (exists h2,
      parse_payload
        (HEADSET_CONNECTED :: vl1 :: v1 ++ HEADSET_CONNECTED :: vl2 :: v2) h
        = Some (Returned, h2, cs) /\
      status h2 = Some STATUS_CONNECTED /\
      headset_id h2 = Some (hex v2)).
Proof.
  intros H1 H2 connected cs.
  assert (Two : forall rest0,
             parse_payload
               (HEADSET_CONNECTED :: vl1 :: v1
                  ++ HEADSET_CONNECTED :: vl2 :: v2 ++ rest0) h =
             and_then cs
               (parse_payload rest0
                  (set_headset_id (Some (hex v2)) connected))).
  { intros rest0.
    rewrite (parse_payload_multi_row HEADSET_CONNECTED vl1 v1 _ h
               (set_headset_id (Some (hex v1)) connected) cs);
      [|cbn; lia|assumption|apply dispatch_headset_connected].
    rewrite (parse_payload_multi_row HEADSET_CONNECTED vl2 v2 rest0 _
               (set_headset_id (Some (hex v2)) connected) []);
      [|cbn; lia|assumption|apply dispatch_headset_connected].
    destruct (parse_payload rest0 _) as [[[e h'] cs']|]; reflexivity. }
  assert (One : forall rest0,
             parse_payload (HEADSET_CONNECTED :: vl1 :: v1 ++ rest0) h =
             and_then cs
               (parse_payload rest0
                  (set_headset_id (Some (hex v1)) connected))).
  { intros rest0. apply parse_payload_multi_row; [cbn; lia|assumption|].
    apply dispatch_headset_connected. }
  split; [|split; [|split; [|split; [|split; [|split]]]]].
  - intros vlength. apply dispatch_headset_connected.
  - intros vlength. apply dispatch_headset_connected.
  - apply One.
  - apply Two.
  - intros vlength.
    exists (set_headset_id (Some (hex v1)) connected).
    split; [apply dispatch_headset_connected|]. split; reflexivity.
  - exists (set_headset_id (Some (hex v1)) connected).
    split; [|split; reflexivity].
    rewrite <- (app_nil_r v1) at 1. rewrite One.
    cbn [parse_payload parse_loop List.length Nat.ltb Nat.leb and_then].
    rewrite app_nil_r. reflexivity.
  - exists (set_headset_id (Some (hex v2)) connected).
    split; [|split; reflexivity].
    rewrite <- (app_nil_r v2) at 1. rewrite Two.
    cbn [parse_payload parse_loop List.length Nat.ltb Nat.leb and_then].
    rewrite app_nil_r. reflexivity.
Qed.

Lemma headset_connected_once_witness :
  dispatch_multi (ord HEADSET_CONNECTED) 2 [x12; xab]
    (listening headset_connected_handlers) =
    Some (set_headset_id (Some "12ab"%string)
            (set_status (Some STATUS_CONNECTED)
               (listening headset_connected_handlers)),
          [Call headset_connected_handlers 1%nat NoArg]) /\
  dispatch_multi (ord HEADSET_CONNECTED) 2 [x34; xcd]
    (set_headset_id (Some "12ab"%string)
       (set_status (Some STATUS_CONNECTED)
          (listening headset_connected_handlers))) =
    Some (set_headset_id (Some "34cd"%string)
            (set_status (Some STATUS_CONNECTED)
               (listening headset_connected_handlers)),
          []) /\
  parse_payload (HEADSET_CONNECTED :: x02 :: [x12; xab] ++ [x04; x32])
    (listening headset_connected_handlers) =
    and_then [Call headset_connected_handlers 1%nat NoArg]
      (parse_payload [x04; x32]
         (set_headset_id (Some "12ab"%string)
            (set_status (Some STATUS_CONNECTED)
               (listening headset_connected_handlers)))) /\
  parse_payload
    (HEADSET_CONNECTED :: x02 :: [x12; xab]
       ++ HEADSET_CONNECTED :: x02 :: [x34; xcd] ++ [x04; x32])
    (listening headset_connected_handlers) =
    and_then [Call headset_connected_handlers 1%nat NoArg]
      (parse_payload [x04; x32]
         (set_headset_id (Some "34cd"%string)
            (set_status (Some STATUS_CONNECTED)
               (listening headset_connected_handlers)))) /\
  (exists h1,
      dispatch_multi (ord HEADSET_CONNECTED) 2 [x12; xab]
        (listening headset_connected_handlers)
        = Some (h1, [Call headset_connected_handlers 1%nat NoArg]) /\
      status h1 = Some STATUS_CONNECTED /\
      headset_id h1 = Some "12ab"%string) /\
  (exists h1,
      parse_payload (HEADSET_CONNECTED :: x02 :: [x12; xab])
        (listening headset_connected_handlers)
        = Some (Returned, h1, [Call headset_connected_handlers 1%nat NoArg]) /\
      status h1 = Some STATUS_CONNECTED /\
      headset_id h1 = Some "12ab"%string) /\
  (exists h2,
      parse_payload
        (HEADSET_CONNECTED :: x02 :: [x12; xab]
           ++ HEADSET_CONNECTED :: x02 :: [x34; xcd])
        (listening headset_connected_handlers)
        = Some (Returned, h2, [Call headset_connected_handlers 1%nat NoArg]) /\
      status h2 = Some STATUS_CONNECTED /\
      headset_id h2 = Some "34cd"%string).
Proof.
  destruct (headset_connected_once (listening headset_connected_handlers)
              x02 x02 [x12; xab] [x34; xcd] [x04; x32])
    as (D1 & D2 & P1 & P2 & E1 & E2 & E3).
  - reflexivity.
  - reflexivity.
  - split; [exact (D1 2)|]. split; [exact (D2 2)|].
    split; [exact P1|]. split; [exact P2|].
    split; [exact (E1 2)|]. split; [exact E2|exact E3].
Defined.

(** ** The rows that leave [status] alone *)

Lemma dispatch_single_status (code value : Z) (h : Headset) :
  status (fst (dispatch_single code value h)) = status h.
Proof.
  unfold dispatch_single.
  repeat match goal with
         | |- context [if ?b then _ else _] => destruct b
         end; reflexivity.
Qed.

Lemma dispatch_raw_status (code : Z) (value : list byte) (h h' : Headset)
  (cs : list call) :
  dispatch_raw code value h = Some (h', cs) -> status h' = status h.
Proof.
  unfold dispatch_raw. destruct (code =? ord RAW_VALUE).
  - destruct (getitem value 0); [|discriminate].
    destruct (getitem value 1); [|discriminate].
    intros H. inversion H. reflexivity.
  - intros H. inversion H. reflexivity.
Qed.

Lemma dispatch_link_status (code vlength : Z) (value : list byte)
  (h : Headset) :
  code <> ord HEADSET_CONNECTED -> code <> ord STANDBY_SCAN ->
  status (fst (dispatch_link code vlength value h)) = status h.
Proof.
  intros H1 H2. apply Z.eqb_neq in H1. apply Z.eqb_neq in H2.
  unfold dispatch_link. rewrite H1, H2.
  repeat match goal with
         | |- context [if ?b then _ else _] => destruct b
         end; reflexivity.
Qed.

(** C9.  A turn that decodes a row whose code is neither
    [HEADSET_CONNECTED] nor [STANDBY_SCAN] hands on a headset with the
    [status] it found; [HEADSET_DISCONNECTED], [HEADSET_NOT_FOUND] and
    [REQUEST_DENIED] are such codes. *)
Theorem status_frame (payload : list byte) (index : nat) (h : Headset)
  (index' : nat) (h' : Headset) (cs : list call) (code : Z) :
  parse_turn payload index h = Next index' h' cs ->
  row_code payload index = Some code ->
  code <> ord HEADSET_CONNECTED -> code <> ord STANDBY_SCAN ->
  status h' = status h.
Proof.
  unfold parse_turn, row_code. intros T C H1 H2.
  destruct (getitem payload index) as [c0|]; [|discriminate].
  destruct (excode_loop (skipn (S index) payload) c0 (S index) 0)
    as [[c i] e].
  inversion C; subst c. clear C.
  destruct (code <? 128).
  - destruct (getitem payload i) as [value|]; [|discriminate].
    pose proof (dispatch_single_status code value h) as St.
    destruct (dispatch_single code value h) as [h1 cs1].
    inversion T; subst. exact St.
  - destruct (getitem payload i) as [vlength|]; [|discriminate].
    unfold dispatch_multi in T.
    destruct (dispatch_raw code _ h) as [[h1 cs1]|] eqn:R; [|discriminate].
    apply dispatch_raw_status in R.
    match type of T with
    | context [dispatch_link code vlength ?v h1] =>
        pose proof (dispatch_link_status code vlength v h1 H1 H2) as L;
        destruct (dispatch_link code vlength v h1) as [h2 cs2]
    end.
    inversion T; subst. simpl in L. congruence.
Qed.

Lemma status_frame_witness :
  status (set_status (Some STATUS_CONNECTED)
            (listening headset_disconnected_handlers)) =
  status (set_status (Some STATUS_CONNECTED)
            (listening headset_disconnected_handlers)) /\
  status (set_attention 50 (set_status (Some STATUS_CONNECTED)
                              (listening attention_handlers))) =
  status (set_status (Some STATUS_CONNECTED) (listening attention_handlers)).
Proof.
  split.
  - apply (status_frame [x55; xd2; x02; x12; x34] 0
             (set_status (Some STATUS_CONNECTED)
                (listening headset_disconnected_handlers))
             5
             (set_status (Some STATUS_CONNECTED)
                (listening headset_disconnected_handlers))
             [Call headset_disconnected_handlers 1%nat (StrArg "1234")]
             210).
    + reflexivity.
    + reflexivity.
    + vm_compute. discriminate.
    + vm_compute. discriminate.
  - apply (status_frame [x04; x32] 0
             (set_status (Some STATUS_CONNECTED) (listening attention_handlers))
             2
             (set_attention 50
                (set_status (Some STATUS_CONNECTED)
                   (listening attention_handlers)))
             [Call attention_handlers 1%nat (IntArg 50)] 4).
    + reflexivity.
    + reflexivity.
    + vm_compute. discriminate.
    + vm_compute. discriminate.
Defined.

(** * Further properties of the decoder *)

(** ** Rows and what follows them *)

Lemma and_then_app (cs cs' : list call)
  (r : option (ending * Headset * list call)) :
  and_then cs (and_then cs' r) = and_then (cs ++ cs') r.
Proof.
  destruct r as [[[e h] cs'']|]; simpl; [|reflexivity].
  rewrite app_assoc. reflexivity.
Qed.

Lemma excode_loop_shift2 (k m : nat) (unread : list byte) :
  forall code index excode,
    excode_loop unread code (k + index) (m + excode) =
    let '(c, i, e) := excode_loop unread code index excode in
    (c, (k + i)%nat, (m + e)%nat).
Proof.
  induction unread as [|b unread IH]; intros code index excode;
    simpl; destruct (code =? ord EXCODE); try reflexivity.
  - rewrite (plus_n_Sm m excode). reflexivity.
  - rewrite (plus_n_Sm k index), (plus_n_Sm m excode). apply IH.
Qed.

Lemma parse_turn_excode (b : byte) (p : list byte) (h : Headset) :
  parse_turn (EXCODE :: b :: p) 0 h = shift 1 (parse_turn (b :: p) 0 h).
Proof.
  unfold parse_turn.
  change (getitem (EXCODE :: b :: p) 0) with (Some (ord EXCODE)).
  change (getitem (b :: p) 0) with (Some (ord b)).
  cbv beta iota zeta.
  change (skipn 1 (EXCODE :: b :: p)) with (b :: p).
  change (skipn 1 (b :: p)) with p.
  cbn [excode_loop]. rewrite Z.eqb_refl.
  change 2%nat with (1 + 1)%nat at 1. change 1%nat with (1 + 0)%nat at 3.
  rewrite excode_loop_shift2.
  destruct (excode_loop p (ord b) 1 0) as [[c j] e].
  change (EXCODE :: b :: p) with ([EXCODE] ++ b :: p).
  change (1 + j)%nat with (List.length [EXCODE] + j)%nat.
  rewrite getitem_app_r.
  destruct (c <? 128).
  - destruct (getitem (b :: p) j) as [value|]; [|reflexivity].
    destruct (dispatch_single c value h). reflexivity.
  - destruct (getitem (b :: p) j) as [vlength|]; [|reflexivity].
    rewrite plus_n_Sm, skipn_app_r.
    destruct (dispatch_multi c vlength _ h) as [[h' cs]|]; reflexivity.
Qed.

Lemma parse_loop_S (fuel : nat) (payload : list byte) (index : nat)
  (h : Headset) :
  parse_loop (S fuel) payload index h =
  if (index <? List.length payload)%nat then
    match parse_turn payload index h with
    | Break => Some (Returned, h, [])
    | Raise => Some (IndexError, h, [])
    | Next index' h' cs => and_then cs (parse_loop fuel payload index' h')
    end
  else Some (Returned, h, []).
Proof. reflexivity. Qed.

Lemma parse_payload_excode (p : list byte) (h : Headset) :
  parse_payload (EXCODE :: p) h = parse_payload p h.
Proof.
  destruct p as [|b p]; [reflexivity|].
  unfold parse_payload.
  rewrite (parse_loop_S _ (EXCODE :: b :: p)), (parse_loop_S _ (b :: p)).
  rewrite parse_turn_excode.
  replace (0 <? List.length (EXCODE :: b :: p))%nat with true by reflexivity.
  replace (0 <? List.length (b :: p))%nat with true by reflexivity.
  destruct (parse_turn (b :: p) 0 h) as [j h' cs| |] eqn:T; try reflexivity.
  apply parse_turn_advances in T.
  cbn [shift]. f_equal.
  change (EXCODE :: b :: p) with ([EXCODE] ++ b :: p).
  change (1 + j)%nat with (List.length [EXCODE] + j)%nat.
  rewrite parse_loop_app. apply parse_loop_fuel; cbn [List.length app]; lia.
Qed.

Lemma parse_payload_excodes (k : nat) (p : list byte) (h : Headset) :
  parse_payload (repeat EXCODE k ++ p) h = parse_payload p h.
Proof.
  induction k as [|k IH]; [reflexivity|].
  simpl. rewrite parse_payload_excode. exact IH.
Qed.

Lemma parse_payload_one_row (r : row) (rest : list byte) (h : Headset) :
  row_ok r = true ->
  parse_payload (row_bytes r ++ rest) h =
  match dispatch_row r h with
  | None => Some (IndexError, h, [])
  | Some (h', cs) => and_then cs (parse_payload rest h')
  end.
Proof.
  destruct r as [k c v|k c vl value]; simpl; intros Hok;
    apply andb_prop in Hok; destruct Hok as [H1 H2];
    rewrite <- app_assoc, parse_payload_excodes.
  - apply Z.ltb_lt in H1. apply negb_true_iff, Z.eqb_neq in H2.
    pose proof (single_row_turn c v rest h H1 H2) as T.
    destruct (dispatch_single (ord c) (ord v) h) as [h' cs].
    apply (parse_payload_row [c; v]). exact T.
  - apply Z.leb_le in H1. apply Z.eqb_eq in H2.
    pose proof (multi_row_turn c vl value rest h H1 H2) as T.
    destruct (dispatch_multi (ord c) (ord vl) value h) as [[h' cs]|].
    + apply (parse_payload_row (c :: vl :: value)). exact T.
    + apply parse_payload_raise. exact T.
Qed.

Lemma parse_payload_rows (rs : list row) :
  forall tail h,
    forallb row_ok rs = true ->
    parse_payload (flat_map row_bytes rs ++ tail) h =
    match apply_rows rs h with
    | (IndexError, h', cs) => Some (IndexError, h', cs)
    | (Returned, h', cs) => and_then cs (parse_payload tail h')
    end.
Proof.
  induction rs as [|r rs IH]; intros tail h Hok.
  - simpl. destruct (parse_payload tail h) as [[[e h'] cs]|]; reflexivity.
  - simpl in Hok. apply andb_prop in Hok. destruct Hok as [Hr Hrs].
    simpl flat_map. rewrite <- app_assoc.
    rewrite parse_payload_one_row by assumption. simpl apply_rows.
    destruct (dispatch_row r h) as [[h1 cs1]|]; [|reflexivity].
    rewrite IH by assumption.
    destruct (apply_rows rs h1) as [[[] h2] cs2]; simpl; [|reflexivity].
    apply and_then_app.
Qed.

Lemma parse_payload_lone (c : byte) (h : Headset) :
  parse_payload [c] h = Some (Returned, h, []).
Proof. destruct c; reflexivity. Qed.

(** X1.  A payload made of well-formed rows is decoded row by row: what
    [parse_payload] does is what dispatching the rows in order does, up to
    the first row that raises; with further bytes behind the rows, it goes
    on with them from the headset the rows leave. *)
Theorem rows_decoded_in_order (rs : list row) (tail : list byte)
  (h : Headset) :
  forallb row_ok rs = true ->
  parse_payload (flat_map row_bytes rs) h = Some (apply_rows rs h) /\
  parse_payload (flat_map row_bytes rs ++ tail) h =
  match apply_rows rs h with
  | (IndexError, h', cs) => Some (IndexError, h', cs)
  | (Returned, h', cs) => and_then cs (parse_payload tail h')
  end.
Proof.
  intros Hok. split; [|apply parse_payload_rows; assumption].
  rewrite <- (app_nil_r (flat_map row_bytes rs)).
  rewrite parse_payload_rows by assumption.
  destruct (apply_rows rs h) as [[[] h'] cs]; simpl; rewrite ?app_nil_r;
    reflexivity.
Qed.

Lemma rows_decoded_in_order_witness :
  parse_payload
    (flat_map row_bytes
       [Single 0 x04 x32; Multi 1 xd0 x02 [x12; xab]; Single 0 x05 x28])
    (listening2 attention_handlers headset_connected_handlers)
  = Some (apply_rows
            [Single 0 x04 x32; Multi 1 xd0 x02 [x12; xab]; Single 0 x05 x28]
            (listening2 attention_handlers headset_connected_handlers)) /\
  parse_payload
    (flat_map row_bytes
       [Single 0 x04 x32; Multi 1 xd0 x02 [x12; xab]; Single 0 x05 x28]
     ++ [x16])
    (listening2 attention_handlers headset_connected_handlers)
  = match
      apply_rows
        [Single 0 x04 x32; Multi 1 xd0 x02 [x12; xab]; Single 0 x05 x28]
        (listening2 attention_handlers headset_connected_handlers)
    with
    | (IndexError, h', cs) => Some (IndexError, h', cs)
    | (Returned, h', cs) => and_then cs (parse_payload [x16] h')
    end.
Proof.
  apply (rows_decoded_in_order
           [Single 0 x04 x32; Multi 1 xd0 x02 [x12; xab]; Single 0 x05 x28]
           [x16] (listening2 attention_handlers headset_connected_handlers)).
  reflexivity.
Defined.

(** X2.  A payload that ends, after well-formed rows, in the start of a
    row that has no value byte or length byte left (any [EXCODE] bytes and
    one more byte) is decoded as the rows alone: the cut row is dropped,
    silently. *)
Theorem cut_row_dropped (rs : list row) (k : nat) (c : byte) (h : Headset) :
  forallb row_ok rs = true ->
  parse_payload (flat_map row_bytes rs ++ repeat EXCODE k ++ [c]) h =
  Some (apply_rows rs h).
Proof.
  intros Hok. rewrite parse_payload_rows by assumption.
  destruct (apply_rows rs h) as [[[] h'] cs]; [|reflexivity].
  rewrite parse_payload_excodes, parse_payload_lone. simpl.
  rewrite app_nil_r. reflexivity.
Qed.

Lemma cut_row_dropped_witness :
  parse_payload
    (flat_map row_bytes [Single 0 x04 x32; Single 2 x02 x00]
     ++ repeat EXCODE 1 ++ [xd0])
    (listening2 attention_handlers good_signal_handlers)
  = Some (apply_rows [Single 0 x04 x32; Single 2 x02 x00]
            (listening2 attention_handlers good_signal_handlers)).
Proof.
  apply (cut_row_dropped [Single 0 x04 x32; Single 2 x02 x00] 1 xd0
           (listening2 attention_handlers good_signal_handlers)).
  reflexivity.
Defined.

(** X3.  [EXCODE] bytes in front of a payload change nothing: they are
    counted and the count is not used. *)
Theorem excode_prefix_ignored (k : nat) (p : list byte) (h : Headset) :
  parse_payload (repeat EXCODE k ++ p) h = parse_payload p h.
Proof. apply parse_payload_excodes. Qed.

(** X4.  A row with a length byte that announces at least as many value
    bytes as the payload has left is dispatched with the bytes that are
    left, and ends the payload: nothing tells the short value from a full
    one, except that a [RAW_VALUE] row then raises when fewer than two
    bytes are left. *)
Theorem overlong_row_takes_the_rest (c vl : byte) (left : list byte)
  (h : Headset) :
  128 <= ord c -> Z.of_nat (List.length left) <= ord vl ->
  parse_payload (c :: vl :: left) h =
  match dispatch_multi (ord c) (ord vl) left h with
  | Some (h', cs) => Some (Returned, h', cs)
  | None => Some (IndexError, h, [])
  end.
Proof.
  intros Hc Hvl.
  assert (T : parse_turn (c :: vl :: left) 0 h =
              match dispatch_multi (ord c) (ord vl) left h with
              | Some (h', cs) => Next (2 + Z.to_nat (ord vl)) h' cs
              | None => Raise
              end).
  { unfold parse_turn.
    change (getitem (c :: vl :: left) 0) with (Some (ord c)).
    cbv beta iota zeta.
    rewrite excode_loop_other by (change (ord EXCODE) with 85; lia).
    replace (ord c <? 128) with false by (symmetry; apply Z.ltb_ge; lia).
    change (getitem (c :: vl :: left) 1) with (Some (ord vl)).
    cbv beta iota.
    change (skipn 2 (c :: vl :: left)) with left.
    rewrite firstn_all2 by lia.
    destruct (dispatch_multi (ord c) (ord vl) left h) as [[h' cs]|];
      reflexivity. }
  destruct (dispatch_multi (ord c) (ord vl) left h) as [[h' cs]|].
  - unfold parse_payload. rewrite parse_loop_S.
    replace (0 <? List.length (c :: vl :: left))%nat with true by reflexivity.
    rewrite T. change (List.length (c :: vl :: left))
      with (S (S (List.length left))).
    rewrite parse_loop_S.
    replace (2 + Z.to_nat (ord vl) <? List.length (c :: vl :: left))%nat
      with false by (symmetry; apply Nat.ltb_ge; simpl; lia).
    simpl. rewrite app_nil_r. reflexivity.
  - apply parse_payload_raise. exact T.
Qed.

Lemma overlong_row_takes_the_rest_witness :
  parse_payload [xd0; x04; x12; xab] (listening headset_connected_handlers) =
  match dispatch_multi (ord xd0) (ord x04) [x12; xab]
          (listening headset_connected_handlers) with
  | Some (h', cs) => Some (Returned, h', cs)
  | None => Some (IndexError, listening headset_connected_handlers, [])
  end.
Proof.
  apply (overlong_row_takes_the_rest xd0 x04 [x12; xab]
           (listening headset_connected_handlers)).
  - vm_compute. discriminate.
  - vm_compute. discriminate.
Defined.

(** ** What a turn can do *)

Lemma getitem_ord (bs : list byte) (i : nat) (z : Z) :
  getitem bs i = Some z -> exists b, In b bs /\ z = ord b.
Proof.
  unfold getitem. destruct (nth_error bs i) as [b|] eqn:E; [|discriminate].
  intros H. inversion H. exists b. split; [|reflexivity].
  eapply nth_error_In. exact E.
Qed.

Lemma skipn_In (n : nat) (bs : list byte) (b : byte) :
  In b (skipn n bs) -> In b bs.
Proof.
  intros H. rewrite <- (firstn_skipn n bs). apply in_or_app. right. exact H.
Qed.

Lemma excode_loop_code (unread : list byte) :
  forall code index excode c i e,
    excode_loop unread code index excode = (c, i, e) ->
    c = code \/ exists b, In b unread /\ c = ord b.
Proof.
  induction unread as [|b unread IH]; intros code index excode c i e H;
    simpl in H; destruct (code =? ord EXCODE).
  - inversion H. left. reflexivity.
  - inversion H. left. reflexivity.
  - apply IH in H. destruct H as [->|[b' [Hin ->]]].
    + right. exists b. split; [left; reflexivity|reflexivity].
    + right. exists b'. split; [right; assumption|reflexivity].
  - inversion H. left. reflexivity.
Qed.

(** The code a turn decodes is a byte of the payload. *)
Lemma row_code_In (payload : list byte) (index : nat) (code : Z) :
  row_code payload index = Some code ->
  exists b, In b payload /\ code = ord b.
Proof.
  unfold row_code. destruct (getitem payload index) as [c0|] eqn:G;
    [|discriminate].
  destruct (excode_loop (skipn (S index) payload) c0 (S index) 0)
    as [[c i] e] eqn:E.
  intros H. inversion H; subst c. apply excode_loop_code in E.
  destruct E as [->|[b [Hin ->]]].
  - apply getitem_ord in G. exact G.
  - exists b. split; [|reflexivity]. eapply skipn_In. exact Hin.
Qed.

(** A turn that goes on has dispatched a row, and one that raises has
    met a row that [dispatch_multi] raises on; the code is the one
    [row_code] gives and a one-byte value is a byte. *)
Lemma parse_turn_dispatch (payload : list byte) (index : nat) (h : Headset) :
  match parse_turn payload index h with
  | Next _ h' cs =>
      exists code, row_code payload index = Some code /\
        ((exists b, dispatch_single code (ord b) h = (h', cs)) \/
         (exists vl value, dispatch_multi code vl value h = Some (h', cs)))
  | Raise =>
      exists code vl value, row_code payload index = Some code /\
        dispatch_multi code vl value h = None
  | Break => True
  end.
Proof.
  unfold parse_turn, row_code.
  destruct (getitem payload index) as [c0|]; [|exact I].
  destruct (excode_loop (skipn (S index) payload) c0 (S index) 0)
    as [[c i] e].
  destruct (c <? 128).
  - destruct (getitem payload i) as [value|] eqn:G; [|exact I].
    apply getitem_ord in G. destruct G as [b [_ ->]].
    destruct (dispatch_single c (ord b) h) as [h' cs] eqn:D.
    exists c. split; [reflexivity|]. left. exists b. exact D.
  - destruct (getitem payload i) as [vlength|]; [|exact I].
    destruct (dispatch_multi c vlength _ h) as [[h' cs]|] eqn:D.
    + exists c. split; [reflexivity|]. right. eauto.
    + exists c. eauto.
Qed.

(** A relation between the headset before, the headset after and the calls
    made that every dispatched row keeps holds over whole payloads and
    over whole runs of the listener. *)
Section Through.

Variable Q : Headset -> Headset -> list call -> Prop.

Hypothesis Q_refl : forall h, Q h h [].
Hypothesis Q_trans :
  forall h1 h2 h3 cs1 cs2,
    Q h1 h2 cs1 -> Q h2 h3 cs2 -> Q h1 h3 (cs1 ++ cs2).
Hypothesis Q_single :
  forall code b h, Q h (fst (dispatch_single code (ord b) h))
                     (snd (dispatch_single code (ord b) h)).
Hypothesis Q_multi :
  forall code vl value h h' cs,
    dispatch_multi code vl value h = Some (h', cs) -> Q h h' cs.

Lemma parse_turn_through (payload : list byte) (index : nat) (h : Headset)
  (index' : nat) (h' : Headset) (cs : list call) :
  parse_turn payload index h = Next index' h' cs -> Q h h' cs.
Proof.
  intros T. pose proof (parse_turn_dispatch payload index h) as D.
  rewrite T in D. destruct D as [code [_ [[b D]|[vl [value D]]]]].
  - pose proof (Q_single code b h) as S1. rewrite D in S1. exact S1.
  - eapply Q_multi. exact D.
Qed.

Lemma parse_loop_through (fuel : nat) :
  forall payload index h e h' cs,
    parse_loop fuel payload index h = Some (e, h', cs) -> Q h h' cs.
Proof.
  induction fuel as [|fuel IH]; intros payload index h e h' cs H;
    [discriminate|].
  rewrite parse_loop_S in H.
  destruct (index <? List.length payload)%nat.
  - destruct (parse_turn payload index h) as [i1 h1 cs1| |] eqn:T.
    + apply parse_turn_through in T.
      destruct (parse_loop fuel payload i1 h1) as [[[e2 h2] cs2]|] eqn:L;
        [|discriminate].
      apply IH in L. simpl in H. inversion H; subst.
      eapply Q_trans; eassumption.
    + inversion H; subst. apply Q_refl.
    + inversion H; subst. apply Q_refl.
  - inversion H; subst. apply Q_refl.
Qed.

Lemma parse_payload_through (payload : list byte) (h : Headset)
  (e : ending) (h' : Headset) (cs : list call) :
  parse_payload payload h = Some (e, h', cs) -> Q h h' cs.
Proof. apply parse_loop_through. Qed.

End Through.

(** ** Only [RAW_VALUE] raises *)

Lemma dispatch_multi_None (code vl : Z) (value : list byte) (h : Headset) :
  dispatch_multi code vl value h = None -> code = ord RAW_VALUE.
Proof.
  unfold dispatch_multi, dispatch_raw.
  destruct (code =? ord RAW_VALUE) eqn:E.
  - intros _. apply Z.eqb_eq. exact E.
  - destruct (dispatch_link code vl value h). discriminate.
Qed.

Lemma parse_loop_raises (fuel : nat) :
  forall payload index h h' cs,
    parse_loop fuel payload index h = Some (IndexError, h', cs) ->
    In RAW_VALUE payload.
Proof.
  induction fuel as [|fuel IH]; intros payload index h h' cs H;
    [discriminate|].
  rewrite parse_loop_S in H.
  destruct (index <? List.length payload)%nat; [|discriminate].
  pose proof (parse_turn_dispatch payload index h) as D.
  destruct (parse_turn payload index h) as [i1 h1 cs1| |].
  - destruct (parse_loop fuel payload i1 h1) as [[[e2 h2] cs2]|] eqn:L;
      [|discriminate].
    simpl in H. inversion H; subst. eapply IH. exact L.
  - discriminate.
  - destruct D as [code [vl [value [C N]]]].
    apply dispatch_multi_None in N. subst code.
    apply row_code_In in C. destruct C as [b [Hin Hb]].
    apply ord_inj in Hb. subst b. exact Hin.
Qed.

Lemma parse_payload_returns (payload : list byte) (h : Headset) :
  ~ In RAW_VALUE payload ->
  exists h' cs, parse_payload payload h = Some (Returned, h', cs).
Proof.
  intros Hno.
  destruct (parse_loop_total (S (List.length payload)) payload 0 h)
    as [[[e h'] cs] P]; [lia|].
  destruct e.
  - exists h', cs. exact P.
  - exfalso. apply Hno. eapply parse_loop_raises. exact P.
Qed.

(** X5.  [parse_payload] raises only on a [RAW_VALUE] code: on a payload
    without a byte [0x80] it returns, whatever the bytes are and however
    the payload is cut. *)
Theorem no_raw_value_no_error (payload : list byte) (h : Headset) :
  ~ In RAW_VALUE payload ->
  exists h' cs, parse_payload payload h = Some (Returned, h', cs).
Proof. apply parse_payload_returns. Qed.

Lemma no_raw_value_no_error_witness :
  exists h' cs,
    parse_payload [xd0; x09; x12; x55; x55; xd4; x04]
      (listening headset_connected_handlers) = Some (Returned, h', cs).
Proof.
  apply (no_raw_value_no_error [xd0; x09; x12; x55; x55; xd4; x04]
           (listening headset_connected_handlers)).
  simpl. intros H.
  repeat (destruct H as [H|H]; [discriminate|]). exact H.
Defined.

(** ** The turns of the listener *)

Lemma run_S (fuel : nat) (s : list byte) (h : Headset) :
  run (S fuel) s h =
  match frame s with
  | Failed => Some (mkSession DeviceFailed h [] [])
  | Skipped s' => run fuel s' h
  | Framed payload s' =>
      match parse_payload payload h with
      | None => None
      | Some (IndexError, h', cs) => Some (mkSession Uncaught h' cs [payload])
      | Some (Returned, h', cs) => after cs payload (run fuel s' h')
      end
  end.
Proof.
  cbn [run]. unfold frame.
  repeat match goal with
         | |- context [match read ?n ?x with _ => _ end] =>
             destruct (read n x) as [[? ?]|]
         | |- context [match read_plength ?x with _ => _ end] =>
             destruct (read_plength x) as [[? ?]|]
         | |- context [if bytes_eqb ?a ?b then _ else _] =>
             destruct (bytes_eqb a b)
         | |- context [if ?a >? 170 then _ else _] => destruct (a >? 170)
         end; reflexivity.
Qed.

Lemma read_plength_split (s : list byte) :
  forall plength s',
    read_plength s = Some (plength, s') ->
    exists pre b, s = pre ++ b :: s' /\ plength = ord b /\ plength <> 170.
Proof.
  induction s as [|b s IH]; intros plength s' H; simpl in H; [discriminate|].
  rewrite int_from_bytes_single in H.
  destruct (ord b =? 170) eqn:E; simpl in H.
  - apply IH in H. destruct H as [pre [b' [-> [H1 H2]]]].
    exists (b :: pre), b'. auto.
  - inversion H; subst. apply Z.eqb_neq in E. exists [], b. auto.
Qed.

(** Bytes passed over are a non-empty stretch at the head of the device. *)
Lemma frame_Skipped (s s' : list byte) :
  frame s = Skipped s' -> exists pre, s = pre ++ s' /\ pre <> [].
Proof.
  unfold frame. intros H.
  destruct (read 1 s) as [[b1 s1]|] eqn:R1; [|discriminate].
  apply read_Some in R1. destruct R1 as [-> L1].
  assert (N1 : b1 <> []) by (intros ->; discriminate).
  destruct (bytes_eqb b1 [SYNC]).
  2:{ inversion H; subst. eauto. }
  destruct (read 1 s1) as [[b2 s2]|] eqn:R2; [|discriminate].
  apply read_Some in R2. destruct R2 as [-> L2].
  destruct (bytes_eqb b2 [SYNC]).
  2:{ inversion H; subst. exists (b1 ++ b2). rewrite <- app_assoc.
      split; [reflexivity|]. destruct b1; [contradiction|discriminate]. }
  destruct (read_plength s2) as [[pl s3]|] eqn:R3; [|discriminate].
  apply read_plength_split in R3. destruct R3 as [pre [b [-> _]]].
  destruct (pl >? 170).
  - inversion H; subst. exists (b1 ++ b2 ++ pre ++ [b]).
    rewrite <- !app_assoc. simpl. split; [reflexivity|].
    destruct b1; [contradiction|discriminate].
  - destruct (read (Z.to_nat pl) s3) as [[p s4]|]; [|discriminate].
    destruct (read 1 s4) as [[c s5]|]; discriminate.
Qed.

(** A framed payload lies in the bytes of the device, with a head before
    it and one byte behind it, and has fewer than 170 bytes. *)
Lemma frame_Framed (s payload s' : list byte) :
  frame s = Framed payload s' ->
  exists pre c, s = pre ++ payload ++ c :: s' /\
                (List.length payload < 170)%nat.
Proof.
  unfold frame. intros H.
  destruct (read 1 s) as [[b1 s1]|] eqn:R1; [|discriminate].
  apply read_Some in R1. destruct R1 as [-> L1].
  destruct (bytes_eqb b1 [SYNC]); [|discriminate].
  destruct (read 1 s1) as [[b2 s2]|] eqn:R2; [|discriminate].
  apply read_Some in R2. destruct R2 as [-> L2].
  destruct (bytes_eqb b2 [SYNC]); [|discriminate].
  destruct (read_plength s2) as [[pl s3]|] eqn:R3; [|discriminate].
  apply read_plength_split in R3. destruct R3 as [pre [b [-> [Hpl Hne]]]].
  destruct (pl >? 170) eqn:G; [discriminate|].
  rewrite Z.gtb_ltb in G. apply Z.ltb_ge in G.
  destruct (read (Z.to_nat pl) s3) as [[p s4]|] eqn:R4; [|discriminate].
  apply read_Some in R4. destruct R4 as [-> L4].
  destruct (read 1 s4) as [[c s5]|] eqn:R5; [|discriminate].
  apply read_Some in R5. destruct R5 as [-> L5].
  inversion H; subst.
  destruct c as [|c [|c' cs]]; try discriminate.
  exists (b1 ++ b2 ++ pre ++ [b]), c.
  rewrite <- !app_assoc. simpl. split; [reflexivity|].
  pose proof (ord_range b). lia.
Qed.

Section ThroughRun.

Variable Q : Headset -> Headset -> list call -> Prop.

Hypothesis Q_refl : forall h, Q h h [].
Hypothesis Q_trans :
  forall h1 h2 h3 cs1 cs2,
    Q h1 h2 cs1 -> Q h2 h3 cs2 -> Q h1 h3 (cs1 ++ cs2).
Hypothesis Q_payload :
  forall payload h e h' cs,
    parse_payload payload h = Some (e, h', cs) -> Q h h' cs.

Lemma run_through (fuel : nat) :
  forall s h t, run fuel s h = Some t -> Q h (final t) (calls t).
Proof.
  induction fuel as [|fuel IH]; intros s h t H; [discriminate|].
  rewrite run_S in H. destruct (frame s) as [|s'|payload s'].
  - inversion H; subst. apply Q_refl.
  - apply IH in H. exact H.
  - destruct (parse_payload payload h) as [[[[] h'] cs]|] eqn:P;
      [| |discriminate].
    + apply Q_payload in P.
      destruct (run fuel s' h') as [t'|] eqn:R; [|discriminate].
      apply IH in R. simpl in H. inversion H; subst. simpl.
      eapply Q_trans; eassumption.
    + apply Q_payload in P. inversion H; subst. exact P.
Qed.

End ThroughRun.

(** ** What decoding keeps *)

Lemma raw_range (v0 v1 : Z) :
  0 <= v0 < 256 -> 0 <= v1 < 256 ->
  -32768 <= (if v0 * 256 + v1 >=? 32768 then v0 * 256 + v1 - 65536
             else v0 * 256 + v1) <= 32767.
Proof.
  intros H0 H1. destruct (v0 * 256 + v1 >=? 32768) eqn:G.
  - apply Z.geb_le in G. lia.
  - rewrite Z.geb_leb in G. apply Z.leb_gt in G. lia.
Qed.

Lemma getitem_range (bs : list byte) (i : nat) (z : Z) :
  getitem bs i = Some z -> 0 <= z < 256.
Proof.
  intros H. apply getitem_ord in H. destruct H as [b [_ ->]].
  apply ord_range.
Qed.

Ltac split_ifs :=
  repeat match goal with
         | |- context [if ?c then _ else _] => destruct c
         end.

Lemma dispatch_single_range (code : Z) (b : byte) (h : Headset) :
  in_range h -> in_range (fst (dispatch_single code (ord b) h)).
Proof.
  unfold in_range. intros H. pose proof (ord_range b).
  unfold dispatch_single. split_ifs; simpl; lia.
Qed.

Lemma dispatch_multi_range (code vl : Z) (value : list byte)
  (h h' : Headset) (cs : list call) :
  dispatch_multi code vl value h = Some (h', cs) ->
  in_range h -> in_range h'.
Proof.
  unfold dispatch_multi, dispatch_raw. intros D H.
  assert (L : forall h1, in_range h1 ->
                         in_range (fst (dispatch_link code vl value h1))).
  { intros h1. unfold in_range, dispatch_link. intros H1.
    split_ifs; simpl; lia. }
  destruct (code =? ord RAW_VALUE).
  - destruct (getitem value 0) as [v0|] eqn:G0; [|discriminate].
    destruct (getitem value 1) as [v1|] eqn:G1; [|discriminate].
    apply getitem_range in G0. apply getitem_range in G1.
    pose proof (raw_range v0 v1 G0 G1) as R.
    match type of D with
    | context [dispatch_link code vl value ?h1] =>
        pose proof (L h1) as L1;
        destruct (dispatch_link code vl value h1) as [h2 cs2]
    end.
    inversion D; subst. apply L1. unfold in_range in *. simpl. lia.
  - pose proof (L h H) as L1.
    destruct (dispatch_link code vl value h) as [h2 cs2].
    inversion D; subst. exact L1.
Qed.

Lemma fire_registered (r : registry) (a : pyarg) (h h' : Headset) :
  handlers h' = handlers h -> Forall (registered h) (fire r a h').
Proof.
  intros E. unfold fire. rewrite E. apply Forall_forall.
  intros c Hc. apply in_map_iff in Hc. destruct Hc as [f [<- Hf]].
  exact Hf.
Qed.

Ltac kept :=
  split_ifs; simpl; split;
  first [reflexivity | apply Forall_nil | apply fire_registered; reflexivity].

Lemma dispatch_single_handlers (code value : Z) (h : Headset) :
  handlers (fst (dispatch_single code value h)) = handlers h /\
  Forall (registered h) (snd (dispatch_single code value h)).
Proof. unfold dispatch_single. kept. Qed.

Lemma dispatch_link_handlers (code vl : Z) (value : list byte) (h : Headset) :
  handlers (fst (dispatch_link code vl value h)) = handlers h /\
  Forall (registered h) (snd (dispatch_link code vl value h)).
Proof. unfold dispatch_link. kept. Qed.

Lemma registered_same (h h' : Headset) (cs : list call) :
  handlers h' = handlers h ->
  Forall (registered h') cs -> Forall (registered h) cs.
Proof.
  intros E. apply Forall_impl. intros c. unfold registered. rewrite E. auto.
Qed.

Lemma dispatch_multi_handlers (code vl : Z) (value : list byte)
  (h h' : Headset) (cs : list call) :
  dispatch_multi code vl value h = Some (h', cs) ->
  handlers h' = handlers h /\ Forall (registered h) cs.
Proof.
  unfold dispatch_multi, dispatch_raw. intros D.
  destruct (code =? ord RAW_VALUE).
  - destruct (getitem value 0) as [v0|]; [|discriminate].
    destruct (getitem value 1) as [v1|]; [|discriminate].
    match type of D with
    | context [dispatch_link code vl value ?h1] =>
        pose proof (dispatch_link_handlers code vl value h1) as [L1 L2];
        destruct (dispatch_link code vl value h1) as [h2 cs2]
    end.
    inversion D; subst. simpl in *. split; [exact L1|].
    apply Forall_app. split.
    + apply fire_registered. reflexivity.
    + eapply registered_same; [|exact L2]. reflexivity.
  - pose proof (dispatch_link_handlers code vl value h) as [L1 L2].
    destruct (dispatch_link code vl value h) as [h2 cs2].
    inversion D; subst. simpl in *. auto.
Qed.

(** X6.  The ranges of the fields are kept: from a headset whose levels
    are bytes and whose raw value is a signed 16-bit number, such as a new
    one, every payload and every run of the listener leave such a headset,
    whatever the bytes are and however the call ends. *)
Theorem ranges_kept (h : Headset) :
  in_range h ->
  (forall payload e h' cs,
      parse_payload payload h = Some (e, h', cs) -> in_range h') /\
  (forall s t, listen s h = Some t -> in_range (final t)).
Proof.
  set (Q := fun (h1 h2 : Headset) (_ : list call) =>
              in_range h1 -> in_range h2).
  assert (P : forall payload h1 e h2 cs,
             parse_payload payload h1 = Some (e, h2, cs) -> Q h1 h2 cs).
  { intros payload h1 e h2 cs.
    apply (parse_payload_through Q); unfold Q; auto.
    - intros code b h0. apply dispatch_single_range.
    - intros code vl value h0 h0' cs0. apply dispatch_multi_range. }
  intros H. split.
  - intros payload e h' cs E. exact (P _ _ _ _ _ E H).
  - intros s t E. unfold listen in E.
    apply (run_through Q) in E; unfold Q in *; auto.
Qed.

Lemma ranges_kept_witness :
  (forall payload e h' cs,
      parse_payload payload (Headset_init None) = Some (e, h', cs) ->
      in_range h') /\
  (forall s t, listen s (Headset_init None) = Some t -> in_range (final t)).
Proof.
  apply (ranges_kept (Headset_init None)).
  unfold in_range. simpl. lia.
Defined.

(** X7.  Decoding leaves the handler lists as they are, and calls nothing
    but handlers that are in the list the call is made from: over any
    payload, and over any run of the listener. *)
Theorem calls_are_registered (h : Headset) :
  (forall payload e h' cs,
      parse_payload payload h = Some (e, h', cs) ->
      handlers h' = handlers h /\ Forall (registered h) cs) /\
  (forall s t,
      listen s h = Some t ->
      handlers (final t) = handlers h /\ Forall (registered h) (calls t)).
Proof.
  set (Q := fun (h1 h2 : Headset) (cs : list call) =>
              handlers h2 = handlers h1 /\ Forall (registered h1) cs).
  assert (R : forall h1, Q h1 h1 []).
  { intros h1. split; [reflexivity|apply Forall_nil]. }
  assert (T : forall h1 h2 h3 cs1 cs2,
             Q h1 h2 cs1 -> Q h2 h3 cs2 -> Q h1 h3 (cs1 ++ cs2)).
  { intros h1 h2 h3 cs1 cs2 [E1 F1] [E2 F2]. split; [congruence|].
    apply Forall_app. split; [exact F1|].
    eapply registered_same; eassumption. }
  assert (P : forall payload h1 e h2 cs,
             parse_payload payload h1 = Some (e, h2, cs) -> Q h1 h2 cs).
  { intros payload h1 e h2 cs.
    apply (parse_payload_through Q); auto.
    - intros code b h0. apply dispatch_single_handlers.
    - intros code vl value h0 h0' cs0. apply dispatch_multi_handlers. }
  split.
  - intros payload e h' cs E. exact (P _ _ _ _ _ E).
  - intros s t E. unfold listen in E.
    apply (run_through Q) in E; auto.
Qed.

Lemma not_known (code : Z) :
  ~ In code known_codes ->
  forall b, In b [POOR_SIGNAL; ATTENTION; MEDITATION; BLINK; RAW_VALUE;
                  HEADSET_CONNECTED; HEADSET_NOT_FOUND; HEADSET_DISCONNECTED;
                  REQUEST_DENIED; STANDBY_SCAN] ->
            (code =? ord b) = false.
Proof.
  intros H b Hb. apply Z.eqb_neq. intros ->. apply H.
  unfold known_codes. apply in_map. exact Hb.
Qed.

(** X8.  A row whose code is none of the ten codes the decoder acts on is
    read and passed over: the turn leaves the headset as it is and calls
    no handler. *)
Theorem unknown_code_no_effect (payload : list byte) (index : nat)
  (h : Headset) (index' : nat) (h' : Headset) (cs : list call) (code : Z) :
  parse_turn payload index h = Next index' h' cs ->
  row_code payload index = Some code ->
  ~ In code known_codes ->
  h' = h /\ cs = [].
Proof.
  intros T C U. pose proof (not_known code U) as N.
  pose proof (parse_turn_dispatch payload index h) as D. rewrite T in D.
  destruct D as [code' [C' D]]. rewrite C in C'. inversion C'; subst code'.
  destruct D as [[b D]|[vl [value D]]].
  - unfold dispatch_single in D.
    rewrite !N in D by (simpl; tauto). inversion D. auto.
  - unfold dispatch_multi, dispatch_raw, dispatch_link in D.
    rewrite !N in D by (simpl; tauto). inversion D. auto.
Qed.

Lemma unknown_code_no_effect_witness :
  set_attention 50 (listening attention_handlers)
    = set_attention 50 (listening attention_handlers) /\
  @nil call = [].
Proof.
  apply (unknown_code_no_effect [x04; x32; x83; x02; x01; x02] 2
           (set_attention 50 (listening attention_handlers)) 6
           (set_attention 50 (listening attention_handlers)) [] 131).
  - reflexivity.
  - reflexivity.
  - vm_compute. intros H.
    repeat (destruct H as [H|H]; [discriminate|]). exact H.
Defined.

Lemma calls_are_registered_witness :
  handlers (set_attention 50 (listening attention_handlers))
    = handlers (listening attention_handlers) /\
  Forall (registered (listening attention_handlers))
    [Call attention_handlers 1%nat (IntArg 50)].
Proof.
  destruct (calls_are_registered (listening attention_handlers)) as [P _].
  apply (P [x04; x32] Returned
           (set_attention 50 (listening attention_handlers))
           [Call attention_handlers 1%nat (IntArg 50)]).
  reflexivity.
Defined.

(** ** The rows that always call *)

Lemma single_row (c v : byte) (rest : list byte) (h : Headset) :
  ord c < 128 -> ord c <> ord EXCODE ->
  parse_payload (c :: v :: rest) h =
  and_then (snd (dispatch_single (ord c) (ord v) h))
           (parse_payload rest (fst (dispatch_single (ord c) (ord v) h))).
Proof.
  intros H1 H2. apply (parse_payload_row [c; v]).
  apply single_row_turn; assumption.
Qed.

(** X9.  An [ATTENTION], [MEDITATION] or [BLINK] row stores its value and
    calls every handler of its list with it, whatever was stored before:
    the same value twice calls the handlers twice. *)
Theorem level_rows_always_call (v : byte) (rest : list byte) (h : Headset) :
  parse_payload (ATTENTION :: v :: rest) h =
    and_then (fire attention_handlers (IntArg (ord v)) h)
             (parse_payload rest (set_attention (ord v) h)) /\
  parse_payload (MEDITATION :: v :: rest) h =
    and_then (fire meditation_handlers (IntArg (ord v)) h)
             (parse_payload rest (set_meditation (ord v) h)) /\
  parse_payload (BLINK :: v :: rest) h =
    and_then (fire blink_handlers (IntArg (ord v)) h)
             (parse_payload rest (set_blink (ord v) h)) /\
  parse_payload [ATTENTION; v; ATTENTION; v] h =
    Some (Returned, set_attention (ord v) h,
          fire attention_handlers (IntArg (ord v)) h
          ++ fire attention_handlers (IntArg (ord v)) h).
Proof.
  assert (A : forall rest0 h0,
             parse_payload (ATTENTION :: v :: rest0) h0 =
             and_then (fire attention_handlers (IntArg (ord v)) h0)
                      (parse_payload rest0 (set_attention (ord v) h0))).
  { intros rest0 h0. rewrite single_row by (cbn; lia). reflexivity. }
  split; [apply A|]. split; [|split].
  - rewrite single_row by (cbn; lia). reflexivity.
  - rewrite single_row by (cbn; lia). reflexivity.
  - rewrite A, A. cbn. rewrite app_nil_r. reflexivity.
Qed.

(** ** The rows that only notify *)

Lemma dispatch_notify (h : Headset) (vlength : Z) (value : list byte) :
  dispatch_multi (ord HEADSET_NOT_FOUND) vlength value h =
    Some (h, fire headset_notfound_handlers
               (if vlength >? 0 then StrArg (hex value) else NoneArg) h) /\
  dispatch_multi (ord HEADSET_DISCONNECTED) vlength value h =
    Some (h, fire headset_disconnected_handlers (StrArg (hex value)) h) /\
  dispatch_multi (ord REQUEST_DENIED) vlength value h =
    Some (h, fire request_denied_handlers NoArg h).
Proof.
  unfold dispatch_multi, dispatch_raw, dispatch_link.
  codes. cbn [Z.eqb Pos.eqb]. cbv iota beta.
  destruct (vlength >? 0); repeat split; reflexivity.
Qed.

(** X10.  A [HEADSET_NOT_FOUND], [HEADSET_DISCONNECTED] or
    [REQUEST_DENIED] row changes no field of the headset, the status
    included; it calls the handlers of its list: with the hexadecimal text
    of the value, with [None] in place of it for a [HEADSET_NOT_FOUND] row
    of length 0, and with nothing for [REQUEST_DENIED]. *)
Theorem notify_rows_change_nothing (vl : byte) (value rest : list byte)
  (h : Headset) :
  ord vl = Z.of_nat (List.length value) ->
  parse_payload (HEADSET_NOT_FOUND :: vl :: value ++ rest) h =
    and_then (fire headset_notfound_handlers
                (match value with
                 | [] => NoneArg
                 | _ :: _ => StrArg (hex value)
                 end) h)
             (parse_payload rest h) /\
  parse_payload (HEADSET_DISCONNECTED :: vl :: value ++ rest) h =
    and_then (fire headset_disconnected_handlers (StrArg (hex value)) h)
             (parse_payload rest h) /\
  parse_payload (REQUEST_DENIED :: vl :: value ++ rest) h =
    and_then (fire request_denied_handlers NoArg h)
             (parse_payload rest h).
Proof.
  intros Hvl.
  destruct (dispatch_notify h (ord vl) value) as (N & D & R).
  repeat split.
  - apply parse_payload_multi_row; [cbn; lia|assumption|].
    rewrite N, Hvl. destruct value; reflexivity.
  - apply parse_payload_multi_row; [cbn; lia|assumption|exact D].
  - apply parse_payload_multi_row; [cbn; lia|assumption|exact R].
Qed.

Lemma notify_rows_change_nothing_witness :
  parse_payload (HEADSET_NOT_FOUND :: x02 :: [x12; xab] ++ [x04; x32])
    (listening2 headset_notfound_handlers headset_disconnected_handlers) =
    and_then [Call headset_notfound_handlers 1%nat (StrArg "12ab")]
      (parse_payload [x04; x32]
         (listening2 headset_notfound_handlers
            headset_disconnected_handlers)) /\
  parse_payload (HEADSET_DISCONNECTED :: x02 :: [x12; xab] ++ [x04; x32])
    (listening2 headset_notfound_handlers headset_disconnected_handlers) =
    and_then [Call headset_disconnected_handlers 2%nat (StrArg "12ab")]
      (parse_payload [x04; x32]
         (listening2 headset_notfound_handlers
            headset_disconnected_handlers)) /\
  parse_payload (REQUEST_DENIED :: x02 :: [x12; xab] ++ [x04; x32])
    (listening2 headset_notfound_handlers headset_disconnected_handlers) =
    and_then []
      (parse_payload [x04; x32]
         (listening2 headset_notfound_handlers
            headset_disconnected_handlers)).
Proof.
  apply (notify_rows_change_nothing x02 [x12; xab] [x04; x32]
           (listening2 headset_notfound_handlers
              headset_disconnected_handlers)).
  reflexivity.
Defined.

(** * Further properties of the listener *)

(** ** Framing *)

(** One turn of the listener, then the rest of the bytes. *)
Lemma listen_frame (s : list byte) (h : Headset) :
  listen s h =
  match frame s with
  | Failed => Some (mkSession DeviceFailed h [] [])
  | Skipped s' => listen s' h
  | Framed payload s' => deliver payload h (listen s')
  end.
Proof.
  unfold listen at 1. rewrite run_S.
  destruct (frame s) as [|s'|payload s'] eqn:F.
  - reflexivity.
  - apply frame_Skipped in F. destruct F as [pre [-> Hpre]].
    destruct pre as [|b pre]; [contradiction|].
    unfold listen. apply run_fuel; rewrite ?length_app; simpl; lia.
  - apply frame_Framed in F. destruct F as [pre [c [-> _]]].
    unfold deliver.
    destruct (parse_payload payload h) as [[[[] h'] cs]|]; auto.
    apply f_equal. unfold listen. apply run_fuel; [|lia].
    rewrite !length_app. simpl. lia.
Qed.

Lemma frame_head (k : nat) (s : list byte) :
  frame (SYNC :: SYNC :: repeat SYNC k ++ s) =
  match read_plength (repeat SYNC k ++ s) with
  | None => Failed
  | Some (plength, s) =>
      if plength >? 170 then Skipped s
      else
        match read (Z.to_nat plength) s with
        | None => Failed
        | Some (payload, s) =>
            match read 1 s with
            | None => Failed
            | Some (_, s) => Framed payload s
            end
        end
  end.
Proof.
  unfold frame.
  rewrite read_one, bytes_eqb_single, eqb_SYNC_true.
  rewrite read_one, bytes_eqb_single, eqb_SYNC_true. reflexivity.
Qed.

Lemma len_not_SYNC (len : byte) : ord len <> 170 -> len <> SYNC.
Proof. intros H ->. apply H. reflexivity. Qed.

(** X11.  A length byte of 170 is never taken for a length: after the two
    [SYNC] bytes, any number of bytes 170 are read and dropped, and the
    first other byte is the length of the packet. *)
Theorem length_170_skipped (k : nat) (len c : byte) (payload s : list byte)
  (h : Headset) :
  ord len = Z.of_nat (List.length payload) -> ord len < 170 ->
  listen (SYNC :: SYNC :: repeat SYNC k ++ len :: payload ++ c :: s) h =
  deliver payload h (listen s).
Proof. apply listen_packet. Qed.

Lemma length_170_skipped_witness :
  listen (SYNC :: SYNC :: repeat SYNC 3 ++ x02 :: [x04; x32] ++ x00 :: [x07])
    (Headset_init None) =
  deliver [x04; x32] (Headset_init None) (listen [x07]).
Proof.
  apply (length_170_skipped 3 x02 x00 [x04; x32] [x07] (Headset_init None)).
  - reflexivity.
  - reflexivity.
Defined.

(** X12.  A length above 170 ends the attempt: nothing is read as a
    payload, and the hunt for [SYNC SYNC] starts again at the byte after
    the length byte. *)
Theorem oversized_length_dropped (k : nat) (len : byte) (s : list byte)
  (h : Headset) :
  170 < ord len ->
  listen (SYNC :: SYNC :: repeat SYNC k ++ len :: s) h = listen s h.
Proof.
  intros Hlen. rewrite listen_frame, frame_head.
  rewrite read_plength_run by (apply len_not_SYNC; lia).
  replace (ord len >? 170) with true
    by (symmetry; rewrite Z.gtb_ltb; apply Z.ltb_lt; lia).
  reflexivity.
Qed.

Lemma oversized_length_dropped_witness :
  listen (SYNC :: SYNC :: repeat SYNC 1 ++ xab :: packet x02 [x04; x32] x00)
    (Headset_init None) =
  listen (packet x02 [x04; x32] x00) (Headset_init None).
Proof.
  apply (oversized_length_dropped 1 xab (packet x02 [x04; x32] x00)
           (Headset_init None)).
  reflexivity.
Defined.

(** X13.  A packet is passed on only when all of it has come: when the
    device fails before the payload and the checksum byte are read, the
    payload is not decoded and the headset is left as it is. *)
Theorem unfinished_packet_not_decoded (k : nat) (len : byte)
  (left : list byte) (h : Headset) :
  ord len < 170 -> Z.of_nat (List.length left) <= ord len ->
  listen (SYNC :: SYNC :: repeat SYNC k ++ len :: left) h =
  Some (mkSession DeviceFailed h [] []).
Proof.
  intros Hlt Hleft. rewrite listen_frame, frame_head.
  rewrite read_plength_run by (apply len_not_SYNC; lia).
  replace (ord len >? 170) with false
    by (symmetry; rewrite Z.gtb_ltb; apply Z.ltb_ge; lia).
  destruct (read (Z.to_nat (ord len)) left) as [[p s']|] eqn:R;
    [|reflexivity].
  apply read_Some in R. destruct R as [-> L].
  rewrite length_app in Hleft.
  destruct s' as [|b s']; [reflexivity|]. simpl in Hleft. lia.
Qed.

Lemma unfinished_packet_not_decoded_witness :
  listen (SYNC :: SYNC :: repeat SYNC 0 ++ x02 :: [x04; x32])
    (Headset_init None) =
  Some (mkSession DeviceFailed (Headset_init None) [] []).
Proof.
  apply (unfinished_packet_not_decoded 0 x02 [x04; x32] (Headset_init None)).
  - reflexivity.
  - vm_compute. discriminate.
Defined.

(** X14.  Bytes among which no two neighbours are both [SYNC] are read to
    the end without anything being decoded. *)
Theorem no_sync_pair_no_packet (s : list byte) (h : Headset) :
  no_sync_pair s = true ->
  listen s h = Some (mkSession DeviceFailed h [] []).
Proof.
  remember (List.length s) as n eqn:En.
  assert (Hn : (List.length s <= n)%nat) by lia. clear En.
  revert s Hn. induction n as [|n IH]; intros s Hn Hs.
  - destruct s; [reflexivity|simpl in Hn; lia].
  - destruct s as [|a [|b s]].
    + reflexivity.
    + destruct (Byte.byte_eq_dec a SYNC) as [->|Ha]; [reflexivity|].
      rewrite listen_skip by assumption. reflexivity.
    + destruct (Byte.byte_eq_dec a SYNC) as [->|Ha].
      * assert (Hb : b <> SYNC).
        { intros ->. simpl in Hs. discriminate. }
        rewrite listen_false_sync by assumption.
        apply IH; [simpl in Hn; lia|].
        simpl in Hs. apply andb_prop in Hs. destruct Hs as [_ Hs].
        apply andb_prop in Hs. apply Hs.
      * rewrite listen_skip by assumption.
        apply IH; [simpl in Hn; simpl; lia|].
        change (no_sync_pair (a :: b :: s))
          with (negb (Byte.eqb a SYNC && Byte.eqb b SYNC)
                && no_sync_pair (b :: s)) in Hs.
        apply andb_prop in Hs. apply Hs.
Qed.

Lemma no_sync_pair_no_packet_witness :
  listen [xaa; x02; x04; xaa; x32; xaa] (listening attention_handlers) =
  Some (mkSession DeviceFailed (listening attention_handlers) [] []).
Proof.
  apply (no_sync_pair_no_packet [xaa; x02; x04; xaa; x32; xaa]
           (listening attention_handlers)).
  reflexivity.
Defined.

(** ** Whole runs *)

Lemma run_payloads_short (fuel : nat) :
  forall s h t,
    run fuel s h = Some t ->
    Forall (fun p => (List.length p < 170)%nat) (payloads t).
Proof.
  induction fuel as [|fuel IH]; intros s h t H; [discriminate|].
  rewrite run_S in H. destruct (frame s) as [|s'|payload s'] eqn:F.
  - inversion H; subst. apply Forall_nil.
  - eapply IH. exact H.
  - apply frame_Framed in F. destruct F as [pre [c [_ L]]].
    destruct (parse_payload payload h) as [[[[] h'] cs]|]; [| |discriminate].
    + destruct (run fuel s' h') as [t'|] eqn:R; [|discriminate].
      apply IH in R. simpl in H. inversion H; subst. simpl.
      apply Forall_cons; assumption.
    + inversion H; subst. simpl. apply Forall_cons; [assumption|].
      apply Forall_nil.
Qed.

(** X15.  The listener always comes to an end on the bytes the device
    delivers, and no payload it decodes has more than 169 bytes. *)
Theorem payloads_are_short (s : list byte) (h : Headset) :
  exists t, listen s h = Some t /\
            Forall (fun p => (List.length p < 170)%nat) (payloads t).
Proof.
  destruct (run_total (S (List.length s)) s h) as [t R]; [lia|].
  exists t. split; [exact R|]. eapply run_payloads_short. exact R.
Qed.

Lemma run_no_raw_value (fuel : nat) :
  forall s h,
    (List.length s < fuel)%nat -> ~ In RAW_VALUE s ->
    exists t, run fuel s h = Some t /\ stop t = DeviceFailed.
Proof.
  induction fuel as [|fuel IH]; intros s h Hf Hno; [lia|].
  rewrite run_S. destruct (frame s) as [|s'|payload s'] eqn:F.
  - eexists. split; reflexivity.
  - apply frame_Skipped in F. destruct F as [pre [-> Hpre]].
    destruct pre as [|b pre]; [contradiction|].
    rewrite length_app in Hf. simpl in Hf. apply IH; [lia|].
    intros Hin. apply Hno. apply in_or_app. right. exact Hin.
  - apply frame_Framed in F. destruct F as [pre [c [-> _]]].
    rewrite !length_app in Hf. simpl in Hf.
    destruct (parse_payload_returns payload h) as [h' [cs P]].
    { intros Hin. apply Hno. apply in_or_app. right.
      apply in_or_app. left. exact Hin. }
    rewrite P. destruct (IH s' h') as [t [R St]]; [lia| |].
    { intros Hin. apply Hno. apply in_or_app. right.
      apply in_or_app. right. right. exact Hin. }
    rewrite R. simpl. eexists. split; [reflexivity|exact St].
Qed.

(** X16.  The listener is ended by an [IndexError] only through a
    [RAW_VALUE] code: on bytes without a byte [0x80] it runs until the
    device fails, whatever else the bytes are. *)
Theorem no_raw_value_listener_survives (s : list byte) (h : Headset) :
  ~ In RAW_VALUE s ->
  exists t, listen s h = Some t /\ stop t = DeviceFailed.
Proof. intros Hno. apply run_no_raw_value; [lia|exact Hno]. Qed.

Lemma no_raw_value_listener_survives_witness :
  exists t,
    listen (packet x03 [xd0; x09; x12] x00 ++ [xaa; xaa; x01; xd4])
      (Headset_init None) = Some t /\ stop t = DeviceFailed.
Proof.
  apply (no_raw_value_listener_survives
           (packet x03 [xd0; x09; x12] x00 ++ [xaa; xaa; x01; xd4])
           (Headset_init None)).
  simpl. intros H.
  repeat (destruct H as [H|H]; [discriminate|]). exact H.
Defined.

(** ** Packets between noise *)

Lemma listen_segments (gs : list segment) :
  forall s h,
    forallb segment_ok gs = true ->
    listen (flat_map segment_bytes gs ++ s) h =
    deliver_all (map seg_payload gs) h (listen s).
Proof.
  induction gs as [|g gs IH]; intros s h Hok; [reflexivity|].
  simpl in Hok. apply andb_prop in Hok. destruct Hok as [Hg Hgs].
  unfold segment_ok in Hg. apply andb_prop in Hg. destruct Hg as [Hg Hlt].
  apply andb_prop in Hg. destruct Hg as [Hnoise Hlen].
  apply Z.eqb_eq in Hlen. apply Z.ltb_lt in Hlt.
  simpl flat_map. unfold segment_bytes at 1. rewrite <- !app_assoc.
  rewrite (hunt_through (List.length (noise g))) by (assumption || lia).
  simpl. unfold deliver.
  destruct (parse_payload (seg_payload g) h) as [[[[] h'] cs]|]; auto.
  rewrite IH by assumption. reflexivity.
Qed.

Lemma deliver_all_returns (ps : list (list byte)) :
  forall h,
    (forall p, In p ps -> ~ In RAW_VALUE p) ->
    exists t, deliver_all ps h (listen []) = Some t /\
              payloads t = ps /\ stop t = DeviceFailed.
Proof.
  induction ps as [|p ps IH]; intros h Hno.
  - eexists. simpl. rewrite listen_nil. repeat split.
  - destruct (parse_payload_returns p h) as [h' [cs P]].
    { apply Hno. left. reflexivity. }
    destruct (IH h') as [t [D [Ps St]]].
    { intros q Hq. apply Hno. right. exact Hq. }
    simpl. unfold deliver. rewrite P, D. simpl.
    eexists. repeat split; [|exact St]. simpl. rewrite Ps. reflexivity.
Qed.

(** X17.  Any number of packets, each behind noise in which no two
    neighbours are both [SYNC], are framed one after the other whatever
    their checksum bytes are: the listener delivers their payloads in
    order, and, when no payload has a byte [0x80], it delivers all of
    them and nothing else. *)
Theorem packets_between_noise (gs : list segment) (s : list byte)
  (h : Headset) :
  forallb segment_ok gs = true ->
  listen (flat_map segment_bytes gs ++ s) h =
    deliver_all (map seg_payload gs) h (listen s) /\
  ((forall g, In g gs -> ~ In RAW_VALUE (seg_payload g)) ->
   exists t, listen (flat_map segment_bytes gs) h = Some t /\
             payloads t = map seg_payload gs /\ stop t = DeviceFailed).
Proof.
  intros Hok. split; [apply listen_segments; assumption|].
  intros Hno. rewrite <- (app_nil_r (flat_map segment_bytes gs)).
  rewrite listen_segments by assumption.
  apply deliver_all_returns. intros p Hp.
  apply in_map_iff in Hp. destruct Hp as [g [<- Hg]]. apply Hno. exact Hg.
Qed.

Lemma packets_between_noise_witness :
  listen
    (flat_map segment_bytes
       [mkSegment [x00; xaa] x02 [x04; x32] x00;
        mkSegment [] x02 [x05; x28] xff;
        mkSegment [xaa; x17; xaa] x00 [] x01] ++ [xaa])
    (Headset_init None) =
    deliver_all [[x04; x32]; [x05; x28]; []] (Headset_init None)
      (listen [xaa]) /\
  exists t,
    listen
      (flat_map segment_bytes
         [mkSegment [x00; xaa] x02 [x04; x32] x00;
          mkSegment [] x02 [x05; x28] xff;
          mkSegment [xaa; x17; xaa] x00 [] x01])
      (Headset_init None) = Some t /\
    payloads t = [[x04; x32]; [x05; x28]; []] /\ stop t = DeviceFailed.
Proof.
  destruct (packets_between_noise
              [mkSegment [x00; xaa] x02 [x04; x32] x00;
               mkSegment [] x02 [x05; x28] xff;
               mkSegment [xaa; x17; xaa] x00 [] x01] [xaa]
              (Headset_init None)) as [A B].
  - reflexivity.
  - split; [exact A|]. apply B. intros g Hg. simpl in Hg.
    repeat (destruct Hg as [<-|Hg];
            [simpl; intros H;
             repeat (destruct H as [H|H]; [discriminate|]); exact H|]).
    contradiction.
Defined.

(** * The commands to the dongle *)

Lemma fromhex_hex_cons (b : byte) (s : string) :
  fromhex (String (hex_digit (Byte.to_N b / 16))
             (String (hex_digit (Byte.to_N b mod 16)) s)) =
  match fromhex s with
  | Some bs => Some (b :: bs)
  | None => None
  end.
Proof. destruct b; reflexivity. Qed.

(** [bytes.fromhex] reads back what [bytes.hex] writes. *)
Lemma fromhex_hex (bs : list byte) : fromhex (hex bs) = Some bs.
Proof.
  induction bs as [|b bs IH]; [reflexivity|].
  cbn [hex]. rewrite fromhex_hex_cons, IH. reflexivity.
Qed.

Lemma truthy_hex (bs : list byte) :
  truthy (Some (hex bs)) = match bs with [] => false | _ :: _ => true end.
Proof. destruct bs; reflexivity. Qed.

(** X18.  The id that a [HEADSET_CONNECTED] row stores is the one
    [connect()] sends back: called without an id after such a row, it
    writes [CONNECT] followed by the very value bytes of the row, and the
    [AUTOCONNECT] byte when the row had no value bytes. *)
Theorem connect_after_connected (vl : byte) (value : list byte)
  (h : Headset) :
  ord vl = Z.of_nat (List.length value) ->
  exists h' cs,
    parse_payload (HEADSET_CONNECTED :: vl :: value) h
      = Some (Returned, h', cs) /\
    connect None h' =
    (h', match value with
         | [] => Wrote [[AUTOCONNECT]]
         | _ :: _ => Wrote [CONNECT :: value]
         end).
Proof.
  intros Hvl.
  exists (set_headset_id (Some (hex value))
            (set_status (Some STATUS_CONNECTED) h)).
  eexists. split.
  - rewrite <- (app_nil_r value) at 1.
    rewrite (parse_payload_multi_row HEADSET_CONNECTED vl value [] h _ _
               ltac:(cbn; lia) Hvl (dispatch_headset_connected h _ value)).
    cbn [parse_payload parse_loop List.length Nat.ltb Nat.leb and_then].
    rewrite app_nil_r. reflexivity.
  - unfold connect. change (truthy None) with false.
    cbv beta iota zeta. cbn [headset_id set_headset_id].
    rewrite truthy_hex. destruct value as [|b value]; [reflexivity|].
    cbv beta iota. cbn [negb]. rewrite fromhex_hex. reflexivity.
Qed.

Lemma connect_after_connected_witness :
  exists h' cs,
    parse_payload (HEADSET_CONNECTED :: x02 :: [x12; xab])
      (listening headset_connected_handlers) = Some (Returned, h', cs) /\
    connect None h' = (h', Wrote [CONNECT :: [x12; xab]]).
Proof.
  apply (connect_after_connected x02 [x12; xab]
           (listening headset_connected_handlers)).
  reflexivity.
Defined.

(** X19.  [connect(id)] with a non-empty id stores the id before it
    decodes it: a well-formed id is sent behind [CONNECT], a malformed one
    raises [ValueError] and stays stored; either way a later [connect()]
    without an id does the same again.  No call of [connect] with [None]
    or a string gets as far as adding [None] to [CONNECT]. *)
Theorem connect_stores_the_id (id : string) (h : Headset) :
  id <> EmptyString ->
  headset_id (fst (connect (Some id) h)) = Some id /\
  snd (connect (Some id) h) =
    match fromhex id with
    | Some bs => Wrote [CONNECT :: bs]
    | None => ValueError
    end /\
  connect None (fst (connect (Some id) h)) = connect (Some id) h /\
  (forall id' h', snd (connect id' h') <> TypeError).
Proof.
  intros Hid.
  assert (T : truthy (Some id) = true) by (destruct id; [contradiction|reflexivity]).
  assert (E : connect (Some id) h =
              (set_headset_id (Some id) h,
               match fromhex id with
               | Some bs => Wrote [CONNECT :: bs]
               | None => ValueError
               end)).
  { unfold connect. rewrite T. destruct (fromhex id); reflexivity. }
  rewrite E. cbn [fst snd]. repeat split.
  - unfold connect. change (truthy None) with false.
    cbv beta iota zeta. cbn [headset_id set_headset_id].
    rewrite T. cbn [negb]. destruct (fromhex id); reflexivity.
  - intros id' h'. unfold connect.
    destruct (truthy id') eqn:T'.
    + destruct id' as [s|]; [|discriminate].
      destruct (fromhex s); discriminate.
    + destruct (truthy (headset_id h')) eqn:T''; cbn [negb].
      * destruct (headset_id h') as [s|]; [|discriminate].
        destruct (fromhex s); discriminate.
      * discriminate.
Qed.

Lemma connect_stores_the_id_witness :
  headset_id (fst (connect (Some "12zz"%string) (Headset_init None)))
    = Some "12zz"%string /\
  snd (connect (Some "12zz"%string) (Headset_init None)) = ValueError /\
  connect None (fst (connect (Some "12zz"%string) (Headset_init None)))
    = connect (Some "12zz"%string) (Headset_init None) /\
  (forall id' h', snd (connect id' h') <> TypeError).
Proof.
  apply (connect_stores_the_id "12zz"%string (Headset_init None)).
  discriminate.
Defined.

(** * Which row writes which field *)

Ltac own_code D :=
  repeat match type of D with
         | context [if ?c then _ else _] => destruct c eqn:?
         end;
  inversion D; subst; repeat split; intros Hne; try reflexivity;
  exfalso; apply Hne; apply Z.eqb_eq; assumption.

(** X20.  Every field of the headset is written by the rows of one code
    only: a turn that decodes another code leaves [poor_signal] as it was
    unless the code is [POOR_SIGNAL], and so for [attention], [meditation],
    [blink], [raw_value] and, with [HEADSET_CONNECTED], [headset_id]. *)
Theorem fields_have_one_writer (payload : list byte) (index : nat)
  (h : Headset) (index' : nat) (h' : Headset) (cs : list call) (code : Z) :
  parse_turn payload index h = Next index' h' cs ->
  row_code payload index = Some code ->
  (code <> ord POOR_SIGNAL -> poor_signal h' = poor_signal h) /\
  (code <> ord ATTENTION -> attention h' = attention h) /\
  (code <> ord MEDITATION -> meditation h' = meditation h) /\
  (code <> ord BLINK -> blink h' = blink h) /\
  (code <> ord RAW_VALUE -> raw_value h' = raw_value h) /\
  (code <> ord HEADSET_CONNECTED -> headset_id h' = headset_id h).
Proof.
  intros T C.
  pose proof (parse_turn_dispatch payload index h) as D. rewrite T in D.
  destruct D as [code' [C' D]]. rewrite C in C'. inversion C'; subst code'.
  destruct D as [[b D]|[vl [value D]]].
  - unfold dispatch_single in D. own_code D.
  - unfold dispatch_multi, dispatch_raw in D.
    destruct (code =? ord RAW_VALUE) eqn:ER.
    + destruct (getitem value 0) as [v0|]; [|discriminate].
      destruct (getitem value 1) as [v1|]; [|discriminate].
      unfold dispatch_link in D. own_code D.
    + unfold dispatch_link in D. own_code D.
Qed.

Lemma fields_have_one_writer_witness :
  (4 <> ord POOR_SIGNAL ->
   poor_signal (set_attention 50 (listening attention_handlers))
   = poor_signal (listening attention_handlers)) /\
  (4 <> ord ATTENTION ->
   attention (set_attention 50 (listening attention_handlers))
   = attention (listening attention_handlers)) /\
  (4 <> ord MEDITATION ->
   meditation (set_attention 50 (listening attention_handlers))
   = meditation (listening attention_handlers)) /\
  (4 <> ord BLINK ->
   blink (set_attention 50 (listening attention_handlers))
   = blink (listening attention_handlers)) /\
  (4 <> ord RAW_VALUE ->
   raw_value (set_attention 50 (listening attention_handlers))
   = raw_value (listening attention_handlers)) /\
  (4 <> ord HEADSET_CONNECTED ->
   headset_id (set_attention 50 (listening attention_handlers))
   = headset_id (listening attention_handlers)).
Proof.
  apply (fields_have_one_writer [x55; x04; x32] 0
           (listening attention_handlers) 3
           (set_attention 50 (listening attention_handlers))
           [Call attention_handlers 1%nat (IntArg 50)] 4).
  - reflexivity.
  - reflexivity.
Defined.
